(** * JOB_scraper: the retrieval / extraction / filtering pipeline of
    [job_scraper.py], embedded in Rocq.

    Conventions of the embedding.
    - A Python [str] is a [string]; a character is read as the code point
      of the same number, so the model covers the strings whose code
      points are below 256.  [lower], [strip], [in] and [quote_plus] are
      the Python operations on that range.  The query and the location
      are also given as any [str], a list of code points (module
      [Unicode]): there the encoder of [quote_plus] raises on a
      surrogate, and the page loop calls the URL builder outside its
      [try] block as the source does.
    - A job record is the [dict] built by [extract_job_info]: a finite map
      from field name to a value that is a [str] or a list of [str].
    - The markup is the tree BeautifulSoup hands to the code; [find],
      [find_all], [text] and [get] follow the library on that tree.
    - The network is a function from the requested URL to what the
      request produces, an answer with its status code; every request
      and every pause is recorded in a trace.  Output written with
      [print] is not modelled. *)

From Stdlib Require Import Ascii NArith ZArith Lia.
From stdpp Require Import base gmap strings list pretty sorting.

Open Scope N_scope.
Open Scope Z_scope.
Open Scope nat_scope.

#[local] Arguments String.append !_ _ / : simpl nomatch.

(** ** Python strings *)

Module PyStr.

Definition code (c : ascii) : N := N_of_ascii c.

Definition between (lo hi n : N) : bool := (lo <=? n)%N && (n <=? hi)%N.

(** [str.isspace] on one character. *)
Definition is_space (c : ascii) : bool :=
  let n := code c in
  between 9 13 n || between 28 32 n || (n =? 133)%N || (n =? 160)%N.

(** The upper-case letters: A-Z and the accented capitals, without the
    multiplication sign. *)
Definition is_upper (c : ascii) : bool :=
  let n := code c in
  between 65 90 n || between 192 214 n || between 216 222 n.

Definition lower_char (c : ascii) : ascii :=
  if is_upper c then ascii_of_N (code c + 32) else c.

(** [s.lower()] *)
Fixpoint lower (s : string) : string :=
  match s with
  | EmptyString => EmptyString
  | String c s' => String (lower_char c) (lower s')
  end.

Fixpoint lstrip (s : string) : string :=
  match s with
  | EmptyString => EmptyString
  | String c s' => if is_space c then lstrip s' else s
  end.

Definition is_empty (s : string) : bool :=
  match s with EmptyString => true | String _ _ => false end.

Fixpoint rstrip (s : string) : string :=
  match s with
  | EmptyString => EmptyString
  | String c s' =>
      let r := rstrip s' in
      if is_space c && is_empty r then EmptyString else String c r
  end.

(** [s.strip()] *)
Definition strip (s : string) : string := rstrip (lstrip s).

Fixpoint startswith (s p : string) {struct p} : bool :=
  match p, s with
  | EmptyString, _ => true
  | String a p', String b s' => Ascii.eqb a b && startswith s' p'
  | String _ _, EmptyString => false
  end.

(** [needle in hay] *)
Fixpoint contains (hay needle : string) : bool :=
  startswith hay needle ||
  match hay with
  | EmptyString => false
  | String _ hay' => contains hay' needle
  end.

(** Number of positions of [hay] at which [needle] starts. *)
Fixpoint occurrences (hay needle : string) : nat :=
  (if startswith hay needle then 1 else 0) +
  match hay with
  | EmptyString => 0
  | String _ hay' => occurrences hay' needle
  end.

(** Iterating over a [str] yields its characters as one-character
    strings. *)
Fixpoint chars (s : string) : list string :=
  match s with
  | EmptyString => []
  | String c s' => String c EmptyString :: chars s'
  end.

(** [sep.join(parts)] *)
Fixpoint join (sep : string) (parts : list string) : string :=
  match parts with
  | [] => ""
  | [p] => p
  | p :: ps => p +:+ sep +:+ join sep ps
  end.

(** [str(n)] for an [int]. *)
Definition str_of_int (n : Z) : string := pretty n.

(** A string is a substring of another one when it sits between a
    prefix and a suffix of it. *)
Definition substring (needle hay : string) : Prop :=
  exists a b, hay = a +:+ needle +:+ b.

End PyStr.

(** ** Job records *)

Inductive value : Type :=
| VStr (s : string)
| VList (l : list string).

#[global] Instance value_eq_dec : EqDecision value.
Proof. solve_decision. Defined.

(** A job record: the dict returned by [extract_job_info]. *)
Abbreviation job := (gmap string value).

Definition NA : string := "N/A".

(** [job.get('skills', [])], as the sequence the comprehension iterates. *)
Definition get_skills (j : job) : list string :=
  match j !! "skills" with
  | Some (VList l) => l
  | Some (VStr s) => PyStr.chars s
  | None => []
  end.

(** ** Skill filter *)

Definition has_unfamiliar (unfamiliar_skills : list string) (j : job) : bool :=
  let job_skills := map PyStr.lower (get_skills j) in
  let unfamiliar_lower :=
    map (fun skill => PyStr.strip (PyStr.lower skill)) unfamiliar_skills in
  existsb
    (fun unfamiliar =>
       existsb (fun job_skill => PyStr.contains job_skill unfamiliar) job_skills)
    unfamiliar_lower.

(** The [for job in jobs] loop, with [filtered_jobs] as its accumulator. *)
Fixpoint filter_loop (unfamiliar_skills : list string) (jobs filtered_jobs : list job)
  : list job :=
  match jobs with
  | [] => filtered_jobs
  | j :: rest =>
      if negb (has_unfamiliar unfamiliar_skills j)
      then filter_loop unfamiliar_skills rest (filtered_jobs ++ [j])
      else filter_loop unfamiliar_skills rest filtered_jobs
  end.

Definition filter_jobs_by_skills (jobs : list job) (unfamiliar_skills : list string)
  : list job :=
  filter_loop unfamiliar_skills jobs [].

(** The exclusion rule in the words of the specification: some entry of
    the unfamiliar list, lower-cased and trimmed, is a substring of some
    skill token of the record, lower-cased. *)
Definition requires_unfamiliar (unfamiliar_skills : list string) (j : job) : Prop :=
  exists u t, u ∈ unfamiliar_skills /\ t ∈ get_skills j /\
    PyStr.substring (PyStr.strip (PyStr.lower u)) (PyStr.lower t).

(** ** URL builder *)

Module Urllib.

Definition byte_of (n : N) : ascii := ascii_of_N n.

(** UTF-8 of one code point below 256. *)
Definition utf8_char (c : ascii) : string :=
  let n := PyStr.code c in
  if (n <? 128)%N then String c ""
  else String (byte_of (192 + n / 64)) (String (byte_of (128 + n mod 64)) "").

(** [s.encode('utf-8')] *)
Fixpoint utf8_encode (s : string) : string :=
  match s with
  | EmptyString => ""
  | String c s' => utf8_char c +:+ utf8_encode s'
  end.

(** Letters, digits and [_.-~] are never quoted. *)
Definition always_safe (b : ascii) : bool :=
  let n := PyStr.code b in
  PyStr.between 65 90 n || PyStr.between 97 122 n || PyStr.between 48 57 n ||
  (n =? 95)%N || (n =? 46)%N || (n =? 45)%N || (n =? 126)%N.

Definition hex_digit (n : N) : ascii :=
  if (n <? 10)%N then byte_of (48 + n) else byte_of (55 + n).

(** One byte of the encoded value: kept, turned into [+] (a space) or
    written as [%XX]. *)
Definition quote_byte (b : ascii) : string :=
  if always_safe b then String b ""
  else if Ascii.eqb b " " then "+"
  else String "%" (String (hex_digit (PyStr.code b / 16))
                     (String (hex_digit (PyStr.code b mod 16)) "")).

Fixpoint quote_bytes (bs : string) : string :=
  match bs with
  | EmptyString => ""
  | String b bs' => quote_byte b +:+ quote_bytes bs'
  end.

(** [urllib.parse.quote_plus(s)] *)
Definition quote_plus (s : string) : string := quote_bytes (utf8_encode s).

End Urllib.

(** A [dict] whose iteration order matters: the keys in insertion order.
    [d[k] = v] replaces the value of a key that is there and appends a
    new key at the end. *)
Fixpoint dict_set {V : Type} (d : list (string * V)) (k : string) (v : V)
  : list (string * V) :=
  match d with
  | [] => [(k, v)]
  | (k', v') :: d' =>
      if String.eqb k' k then (k', v) :: d' else (k', v') :: dict_set d' k v
  end.

Definition base_url : string :=
  "https://www.timesjobs.com/candidate/job-search.html".

Definition search_params (search_query location : string) (page : Z)
  : list (string * string) :=
  let params :=
    [ ("from", "submit");
      ("luceneResultSize", "25");
      ("txtKeywords", search_query);
      ("postWeek", "60");
      ("searchType", "personalizedSearch");
      ("actualTxtKeywords", search_query);
      ("searchBy", "0");
      ("rdoOperator", "OR");
      ("pDate", "I");
      ("sequence", PyStr.str_of_int page);
      ("startPage", "1") ] in
  if PyStr.is_empty location then params
  else dict_set params "txtLocation" location.

Definition build_search_url (search_query location : string) (page : Z) : string :=
  let params := search_params search_query location page in
  let url_params :=
    PyStr.join "&"
      (map (fun kv => fst kv +:+ "=" +:+ Urllib.quote_plus (snd kv)) params) in
  base_url +:+ "?" +:+ url_params.

(** ** Exceptions *)

Inductive exn : Type :=
| TypeError
| AttributeError
| RequestException
| HTTPError
| ParserError
| UnicodeEncodeError.

(** [RequestException] and its subclass [HTTPError]; every [exn] is an
    [Exception]. *)
Definition is_request_exception (e : exn) : bool :=
  match e with
  | RequestException | HTTPError => true
  | _ => false
  end.

Inductive result (A : Type) : Type :=
| Ok (a : A)
| Raise (e : exn).
Arguments Ok {A} a.
Arguments Raise {A} e.

#[global] Instance result_ret : MRet result := fun A a => Ok a.
#[global] Instance result_bind : MBind result := fun A B f m =>
  match m with
  | Ok a => f a
  | Raise e => Raise e
  end.

(** ** Markup *)

Module Bs4.

(** A page element: a string of the document or a tag with its name,
    the values of its [class] attribute (none when it has no such
    attribute), its other attributes and its contents. *)
#[warnings="-register-all"]
Inductive node : Type :=
| NavigableString (s : string)
| Tag (name : string) (class_ : list string) (attrs : gmap string string)
      (contents : list node).

(** [element.text]: the strings below it, joined in document order. *)
Fixpoint text (n : node) : string :=
  match n with
  | NavigableString s => s
  | Tag _ _ _ cs =>
      (fix texts (l : list node) : string :=
         match l with
         | [] => ""
         | c :: l' => text c +:+ texts l'
         end) cs
  end.

(** Everything below a tag, in document order. *)
Fixpoint descendants (n : node) : list node :=
  match n with
  | NavigableString _ => []
  | Tag _ _ _ cs =>
      (fix below (l : list node) : list node :=
         match l with
         | [] => []
         | c :: l' => c :: descendants c ++ below l'
         end) cs
  end.

(** The tags directly inside a tag. *)
Definition child_tags (n : node) : list node :=
  match n with
  | NavigableString _ => []
  | Tag _ _ _ cs =>
      List.filter (fun c => match c with Tag _ _ _ _ => true | _ => false end) cs
  end.

(** A [class_] filter accepts a tag when one of its classes is the
    given string, or when its classes joined by spaces are. *)
Definition class_matches (classes : list string) (wanted : string) : bool :=
  existsb (fun c => String.eqb c wanted) classes ||
  String.eqb (PyStr.join " " classes) wanted.

Definition matches (name : string) (class_ : option string) (n : node) : bool :=
  match n with
  | NavigableString _ => false
  | Tag nm classes _ _ =>
      String.eqb nm name &&
      match class_ with
      | None => true
      | Some wanted => class_matches classes wanted
      end
  end.

(** The tags below [n] that a search for [name] and [class_] accepts,
    in document order. *)
Definition select (n : node) (name : string) (class_ : option string)
  : list node :=
  List.filter (matches name class_) (descendants n).

(** The first of them, if any. *)
Definition first_tag (n : node) (name : string) (class_ : option string)
  : option node :=
  head (select n name class_).

(** The attributes of a tag, other than [class]. *)
Definition attrs_of (n : node) : gmap string string :=
  match n with
  | NavigableString _ => ∅
  | Tag _ _ attrs _ => attrs
  end.

(** [tag.find_all(name, class_=...)].  Only a tag has the method: a
    [NavigableString] is a [str], it has no [find_all] and its [find]
    takes no keyword. *)
Definition find_all (n : node) (name : string) (class_ : option string)
  : result (list node) :=
  match n with
  | NavigableString _ => Raise AttributeError
  | Tag _ _ _ _ => Ok (select n name class_)
  end.

(** [tag.find(name, class_=...)]: the first match or [None].  On a
    [NavigableString] the call is [str.find], which rejects the
    [class_] keyword; the code calls [find] without that keyword (and
    [.span]) only after such a call succeeded, or on a tag it found. *)
Definition find (n : node) (name : string) (class_ : option string)
  : result (option node) :=
  match n with
  | NavigableString _ => Raise TypeError
  | Tag _ _ _ _ => Ok (first_tag n name class_)
  end.

(** [tag.get(key)] *)
Definition get (n : node) (key : string) : result (option string) :=
  match n with
  | NavigableString _ => Raise AttributeError
  | Tag _ _ attrs _ => Ok (attrs !! key)
  end.

End Bs4.
Import Bs4.

(** ** Listing extractor *)

(** [elem.text.strip() if elem else "N/A"]; a tag is always true. *)
Definition text_or_NA (elem : option node) : string :=
  match elem with
  | Some e => PyStr.strip (text e)
  | None => NA
  end.

(** [x = li.text.strip()] guarded by [if li.text.strip():]. *)
Definition stripped_or_NA (li : node) : string :=
  if PyStr.is_empty (PyStr.strip (text li)) then NA else PyStr.strip (text li).

(** The dict literal [extract_job_info] returns. *)
Definition job_record
    (company job_title : string) (skills : list string)
    (experience salary location job_description posted_date more_info : string)
  : job :=
  <["company" := VStr company]>
  (<["job_title" := VStr job_title]>
  (<["skills" := VList skills]>
  (<["experience" := VStr experience]>
  (<["salary" := VStr salary]>
  (<["location" := VStr location]>
  (<["job_description" := VStr job_description]>
  (<["posted_date" := VStr posted_date]>
  (<["more_info" := VStr more_info]> ∅)))))))).

(** The body of the [try] block of [extract_job_info]. *)
Definition extract_fields (job_element : node) : result job :=
  company_elem ← find job_element "h3" (Some "joblist-comp-name");
  let company := text_or_NA company_elem in
  job_title_elem ← find job_element "h2" (Some "heading-trun");
  let job_title := text_or_NA job_title_elem in
  skills_section ← find job_element "div" (Some "more-skills-sections");
  skills_list ←
    match skills_section with
    | Some section =>
        spans ← find_all section "span" None;
        mret (map (fun skill => PyStr.strip (text skill)) spans)
    | None => mret []
    end;
  tot_elem ← find job_element "ul" (Some "top-jd-dtl mt-16 clearfix");
  details ←
    match tot_elem with
    | Some tot =>
        li_elements ← find_all tot "li" None;
        match li_elements with
        | li0 :: li1 :: li2 :: _ =>
            (* len(li_elements) >= 3 *)
            mret (stripped_or_NA li0, stripped_or_NA li1, stripped_or_NA li2)
        | _ => mret (NA, NA, NA)
        end
    | None => mret (NA, NA, NA)
    end;
  let location := details.1.1 in
  let experience := details.1.2 in
  let salary := details.2 in
  published_elem ← find job_element "span" (Some "sim-posted");
  published ←
    match published_elem with
    | Some posted =>
        inner ← find posted "span" None;
        mret (match inner with
              | Some sp => PyStr.strip (text sp)
              | None => NA
              end)
    | None => mret NA
    end;
  link_elem ← find job_element "a" None;
  more_info ←
    match link_elem with
    | Some link =>
        href ← get link "href";
        mret (match href with
              | Some h => if PyStr.is_empty h then NA else h
              | None => NA
              end)
    | None => mret NA
    end;
  job_elem ← find job_element "li" (Some "job-description__");
  let job_description := text_or_NA job_elem in
  mret (job_record company job_title skills_list experience salary location
          job_description published more_info).

(** [extract_job_info]: the record, or [None] when the body raised. *)
Definition extract_job_info (job_element : node) : option job :=
  match extract_fields job_element with
  | Ok job_info => Some job_info
  | Raise _ => None
  end.

(** The nine field names of a record. *)
Definition field_names : list string :=
  [ "company"; "job_title"; "skills"; "experience"; "salary"; "location";
    "job_description"; "posted_date"; "more_info" ].

(** ** Pagination and pipeline *)

(** What the program does to the outside: a GET with its timeout, and a
    pause. *)
Inductive event : Type :=
| HttpGet (url : string) (timeout : Z)
| Sleep (seconds : Z).

#[global] Instance event_eq_dec : EqDecision event.
Proof. solve_decision. Defined.

(** An answer of the site: its status code, and the tree BeautifulSoup
    builds from its body ([None] when the parser raises).  It is the
    answer the request returns, after the redirections it followed. *)
Record response : Type := Response {
  status_code : Z;
  parsed : option node
}.

(** [self.session]: what a GET of a URL produces; [None] stands for a
    [RequestException] raised by the request itself (connection error,
    timeout). *)
Abbreviation session := (string -> option response).

(** Computations that may raise and that extend the trace. *)
Definition M (A : Type) : Type := list event -> result A * list event.

#[global] Instance M_ret : MRet M := fun A a tr => (Ok a, tr).
#[global] Instance M_bind : MBind M := fun A B f m tr =>
  match m tr with
  | (Ok a, tr') => f a tr'
  | (Raise e, tr') => (Raise e, tr')
  end.

Definition emit (e : event) : M unit := fun tr => (Ok tt, tr ++ [e]).
Definition raise {A} (e : exn) : M A := fun tr => (Raise e, tr).
Definition lift {A} (r : result A) : M A := fun tr => (r, tr).

(** [try: body except Exception as e: handler e] *)
Definition try_except {A} (body : M A) (handler : exn -> M A) : M A :=
  fun tr =>
    match body tr with
    | (Ok a, tr') => (Ok a, tr')
    | (Raise e, tr') => handler e tr'
    end.

Definition session_get (s : session) (url : string) (timeout : Z) : M response :=
  _ ← emit (HttpGet url timeout);
  match s url with
  | Some r => mret r
  | None => raise RequestException
  end.

(** [response.raise_for_status()]: an [HTTPError] for a client error
    (400 to 499) and for a server error (500 to 599), nothing for any
    other status. *)
Definition raise_for_status (r : response) : M unit :=
  if (400 <=? status_code r)%Z && (status_code r <? 500)%Z then raise HTTPError
  else if (500 <=? status_code r)%Z && (status_code r <? 600)%Z then raise HTTPError
  else mret tt.

Definition BeautifulSoup (r : response) : M node :=
  match parsed r with
  | Some soup => mret soup
  | None => raise ParserError
  end.

Definition sleep (seconds : Z) : M unit := emit (Sleep seconds).

(** Truth value of what [extract_job_info] returned: [None] and the
    empty dict are false. *)
Definition truthy (job_info : option job) : bool :=
  match job_info with
  | Some d => negb (bool_decide (d = ∅))
  | None => false
  end.

(** The [for job_element in job_elements] loop filling [page_jobs]. *)
Fixpoint extract_page (job_elements : list node) (page_jobs : list job) : list job :=
  match job_elements with
  | [] => page_jobs
  | job_element :: rest =>
      let job_info := extract_job_info job_element in
      match job_info with
      | Some d =>
          if truthy job_info then extract_page rest (page_jobs ++ [d])
          else extract_page rest page_jobs
      | None => extract_page rest page_jobs
      end
  end.

(** How one turn of the page loop ends, with the value of [all_jobs]. *)
Inductive turn : Type :=
| Break (all_jobs : list job)
| Next (all_jobs : list job).

(** The [try] block of one page. *)
Definition scrape_page (s : session) (url : string) (all_jobs : list job) : M turn :=
  r ← session_get s url 10;
  _ ← raise_for_status r;
  soup ← BeautifulSoup r;
  job_elements ← lift (find_all soup "li" (Some "clearfix job-bx wht-shd-bx"));
  match job_elements with
  | [] => mret (Break all_jobs)
  | _ :: _ =>
      let page_jobs := extract_page job_elements [] in
      let all_jobs := all_jobs ++ page_jobs in
      _ ← sleep 2;
      mret (Next all_jobs)
  end.

(** Both [except] clauses go on with the next page. *)
Definition on_error (all_jobs : list job) (e : exn) : M turn :=
  if is_request_exception e then mret (Next all_jobs) else mret (Next all_jobs).

(** The [for page in range(1, max_pages + 1)] loop. *)
Fixpoint scrape_pages (s : session) (search_query location : string)
    (pages : list Z) (all_jobs : list job) : M (list job) :=
  match pages with
  | [] => mret all_jobs
  | page :: rest =>
      let url := build_search_url search_query location page in
      t ← try_except (scrape_page s url all_jobs) (on_error all_jobs);
      match t with
      | Break jobs => mret jobs
      | Next jobs => scrape_pages s search_query location rest jobs
      end
  end.

(** [range(start, stop)] *)
Definition py_range (start stop : Z) : list Z := seqZ start (stop - start).

Definition scrape_jobs (s : session) (search_query location : string)
    (unfamiliar_skills : option (list string)) (max_pages : Z) : M (list job) :=
  let unfamiliar_skills := default [] unfamiliar_skills in
  all_jobs ← scrape_pages s search_query location (py_range 1 (max_pages + 1)) [];
  let filtered_jobs := filter_jobs_by_skills all_jobs unfamiliar_skills in
  mret filtered_jobs.

(** One call of [scrape_jobs] from the outside: what it returns or
    raises, and the trace it leaves. *)
Definition run {A} (m : M A) : result A * list event := m [].

(** ** The query and the location as any [str] *)

Module Unicode.

(** A Python [str]: its code points, each below 1114112. *)
Definition str : Type := list N.

(** The [str] of a string of code points below 256. *)
Fixpoint of_latin1 (s : string) : str :=
  match s with
  | EmptyString => []
  | String c s' => PyStr.code c :: of_latin1 s'
  end.

(** U+D800 to U+DFFF. *)
Definition is_surrogate (c : N) : bool := PyStr.between 55296 57343 c.

(** UTF-8 of one code point, on one to four bytes; the codec is strict
    and refuses a surrogate. *)
Definition utf8_char (c : N) : result string :=
  if (c <? 128)%N then Ok (String (Urllib.byte_of c) "")
  else if (c <? 2048)%N then
    Ok (String (Urllib.byte_of (192 + c / 64))
       (String (Urllib.byte_of (128 + c mod 64)) ""))
  else if is_surrogate c then Raise UnicodeEncodeError
  else if (c <? 65536)%N then
    Ok (String (Urllib.byte_of (224 + c / 4096))
       (String (Urllib.byte_of (128 + (c / 64) mod 64))
       (String (Urllib.byte_of (128 + c mod 64)) "")))
  else
    Ok (String (Urllib.byte_of (240 + c / 262144))
       (String (Urllib.byte_of (128 + (c / 4096) mod 64))
       (String (Urllib.byte_of (128 + (c / 64) mod 64))
       (String (Urllib.byte_of (128 + c mod 64)) "")))).

(** [s.encode('utf-8', 'strict')] *)
Fixpoint utf8_encode (s : str) : result string :=
  match s with
  | [] => mret ""
  | c :: s' =>
      b ← utf8_char c;
      bs ← utf8_encode s';
      mret (b +:+ bs)
  end.

(** [urllib.parse.quote_plus(s)]: the value is encoded, then quoted. *)
Definition quote_plus (s : str) : result string :=
  bs ← utf8_encode s;
  mret (Urllib.quote_bytes bs).

Definition search_params (search_query location : str) (page : Z)
  : list (string * str) :=
  let params :=
    [ ("from", of_latin1 "submit");
      ("luceneResultSize", of_latin1 "25");
      ("txtKeywords", search_query);
      ("postWeek", of_latin1 "60");
      ("searchType", of_latin1 "personalizedSearch");
      ("actualTxtKeywords", search_query);
      ("searchBy", of_latin1 "0");
      ("rdoOperator", of_latin1 "OR");
      ("pDate", of_latin1 "I");
      ("sequence", of_latin1 (PyStr.str_of_int page));
      ("startPage", of_latin1 "1") ] in
  match location with
  | [] => params
  | _ :: _ => dict_set params "txtLocation" location
  end.

(** [build_search_url]: the parameters are quoted in the order of the
    dict; the first value the encoder refuses ends the call. *)
Definition build_search_url (search_query location : str) (page : Z)
  : result string :=
  let params := search_params search_query location page in
  parts ← mapM (fun kv => value ← quote_plus (snd kv);
                          mret (fst kv +:+ "=" +:+ value)) params;
  let url_params := PyStr.join "&" parts in
  mret (base_url +:+ "?" +:+ url_params).

(** The page loop: the URL is built before the [try] block is
    entered. *)
Fixpoint scrape_pages (s : session) (search_query location : str)
    (pages : list Z) (all_jobs : list job) : M (list job) :=
  match pages with
  | [] => mret all_jobs
  | page :: rest =>
      url ← lift (build_search_url search_query location page);
      t ← try_except (scrape_page s url all_jobs) (on_error all_jobs);
      match t with
      | Break jobs => mret jobs
      | Next jobs => scrape_pages s search_query location rest jobs
      end
  end.

Definition scrape_jobs (s : session) (search_query location : str)
    (unfamiliar_skills : option (list string)) (max_pages : Z) : M (list job) :=
  let unfamiliar_skills := default [] unfamiliar_skills in
  all_jobs ← scrape_pages s search_query location (py_range 1 (max_pages + 1)) [];
  let filtered_jobs := filter_jobs_by_skills all_jobs unfamiliar_skills in
  mret filtered_jobs.

End Unicode.

(** The URLs requested in a trace, in order. *)
Definition requested (tr : list event) : list string :=
  omap (fun e => match e with HttpGet url _ => Some url | Sleep _ => None end) tr.

(** A status of the 4xx or 5xx class. *)
Definition error_status (status_code : Z) : bool :=
  (400 <=? status_code)%Z && (status_code <? 600)%Z.

(** What the site answers for a page: listing fragments, or no usable
    answer (the request raised, the status is an error status, or the
    body did not parse to a tag). *)
Definition fragments_of (o : option response) : option (list node) :=
  match o with
  | Some (Response status_code (Some (Tag nm cl at_ cs))) =>
      if error_status status_code then None
      else Some (select (Tag nm cl at_ cs) "li" (Some "clearfix job-bx wht-shd-bx"))
  | _ => None
  end.

(** A [FetchError] as the code has it: the request raised, or
    [raise_for_status] did. *)
Definition fetch_error (o : option response) : bool :=
  match o with
  | None => true
  | Some r => error_status (status_code r)
  end.

(** ** Vocabulary of the statements *)

Import PyStr Urllib.

(** Every character of a string passes a test. *)
Fixpoint all_chars (P : ascii -> bool) (s : string) : bool :=
  match s with
  | EmptyString => true
  | String c s' => P c && all_chars P s'
  end.

(** The character is not [x]. *)
Definition is_not (x c : ascii) : bool := negb (Ascii.eqb x c).

(** A character of a printed integer: a digit or the sign. *)
Definition is_int_char (c : ascii) : bool :=
  between 48 57 (code c) || Ascii.eqb c "-".

(** The string has an [=] with no [&] before it. *)
Fixpoint eq_before_amp (n : string) : bool :=
  match n with
  | EmptyString => false
  | String c n' =>
      if Ascii.eqb c "=" then true
      else if Ascii.eqb c "&" then false
      else eq_before_amp n'
  end.

(** The URL as a text: the fixed parameters in their order, with the
    encoded query [Q], the page number [P] and what follows. *)
Definition url_shape (Q P tail : string) : string :=
  base_url +:+ "?from=submit&luceneResultSize=25&txtKeywords=" +:+ Q +:+
  "&postWeek=60&searchType=personalizedSearch&actualTxtKeywords=" +:+ Q +:+
  "&searchBy=0&rdoOperator=OR&pDate=I&sequence=" +:+ P +:+ "&startPage=1" +:+ tail.

(** The last parameter, present when the location is not empty. *)
Definition location_param (location : string) : string :=
  if is_empty location then "" else "&txtLocation=" +:+ quote_plus location.

(** What the code reads for the skills of a tag: the texts of the
    [span] tags below the first skills container, none without one. *)
Definition skills_in (je : node) : list string :=
  match first_tag je "div" (Some "more-skills-sections") with
  | Some section => map (fun skill => strip (text skill)) (select section "span" None)
  | None => []
  end.

(** The items of the detail list: the [li] tags below the first list
    of that class, none without such a list. *)
Definition detail_items (je : node) : list node :=
  match first_tag je "ul" (Some "top-jd-dtl mt-16 clearfix") with
  | Some tot => select tot "li" None
  | None => []
  end.

(** Location, experience and salary as read from the items. *)
Definition details_in (je : node) : string * string * string :=
  match detail_items je with
  | li0 :: li1 :: li2 :: _ => (stripped_or_NA li0, stripped_or_NA li1, stripped_or_NA li2)
  | _ => (NA, NA, NA)
  end.

(** The posted date: one level inside the posted node. *)
Definition posted_in (je : node) : string :=
  match first_tag je "span" (Some "sim-posted") with
  | Some posted => text_or_NA (first_tag posted "span" None)
  | None => NA
  end.

(** The [href] of the first hyperlink. *)
Definition link_in (je : node) : string :=
  match first_tag je "a" None with
  | Some link =>
      match attrs_of link !! "href" with
      | Some h => if is_empty h then NA else h
      | None => NA
      end
  | None => NA
  end.

(** A complete record: the nine fields and no other, [skills] a list
    and the eight others strings. *)
Definition complete (r : job) : Prop :=
  dom r = list_to_set field_names /\
  (forall k, k ∈ field_names -> k <> "skills" -> exists s, r !! k = Some (VStr s)) /\
  (exists l, r !! "skills" = Some (VList l)).

(** A field whose lookup fails holds the sentinel, [skills] the empty
    list. *)
Definition sentinel_on_missing (je : node) (r : job) : Prop :=
  (first_tag je "h3" (Some "joblist-comp-name") = None ->
   r !! "company" = Some (VStr NA)) /\
  (first_tag je "h2" (Some "heading-trun") = None ->
   r !! "job_title" = Some (VStr NA)) /\
  (first_tag je "div" (Some "more-skills-sections") = None ->
   r !! "skills" = Some (VList [])) /\
  (first_tag je "ul" (Some "top-jd-dtl mt-16 clearfix") = None ->
   r !! "experience" = Some (VStr NA) /\ r !! "salary" = Some (VStr NA) /\
   r !! "location" = Some (VStr NA)) /\
  (first_tag je "li" (Some "job-description__") = None ->
   r !! "job_description" = Some (VStr NA)) /\
  ((first_tag je "span" (Some "sim-posted") = None \/
    exists posted, first_tag je "span" (Some "sim-posted") = Some posted /\
                   first_tag posted "span" None = None) ->
   r !! "posted_date" = Some (VStr NA)) /\
  ((first_tag je "a" None = None \/
    exists link, first_tag je "a" None = Some link /\
                 attrs_of link !! "href" = None) ->
   r !! "more_info" = Some (VStr NA)).

(** A [span] tag holding one string. *)
Definition text_span (t : string) : node :=
  Tag "span" [] ∅ [NavigableString t].

Definition contents_of (n : node) : list node :=
  match n with
  | NavigableString _ => []
  | Tag _ _ _ cs => cs
  end.

(** The skills rule read on the child tags of the container: every
    tag directly inside it gives one token. *)
Definition skills_from_child_tags : Prop :=
  forall je section r,
    first_tag je "div" (Some "more-skills-sections") = Some section ->
    extract_job_info je = Some r ->
    r !! "skills" =
      Some (VList (map (fun child => strip (text child)) (child_tags section))).

(** A listing whose skills container holds a [span] and a link. *)
Definition fragment_with_link : node :=
  Tag "li" ["clearfix"; "job-bx"; "wht-shd-bx"] ∅
    [ Tag "div" ["more-skills-sections"] ∅
        [ Tag "span" [] ∅ [NavigableString "Go"];
          Tag "a" [] ∅ [NavigableString "SQL"] ] ].

(** The detail rule read on the list's own items, the [li] tags
    directly inside the list: fewer than three of them leave the three
    sentinels, and the first three give the three fields. *)
Definition own_items (je : node) : list node :=
  match first_tag je "ul" (Some "top-jd-dtl mt-16 clearfix") with
  | Some tot => List.filter (matches "li" None) (child_tags tot)
  | None => []
  end.

Definition details_from_own_items : Prop :=
  forall je r,
    extract_job_info je = Some r ->
    (length (own_items je) < 3 ->
     r !! "experience" = Some (VStr NA) /\ r !! "salary" = Some (VStr NA) /\
     r !! "location" = Some (VStr NA)) /\
    (forall li0 li1 li2 more,
       own_items je = li0 :: li1 :: li2 :: more ->
       r !! "location" = Some (VStr (stripped_or_NA li0)) /\
       r !! "experience" = Some (VStr (stripped_or_NA li1)) /\
       r !! "salary" = Some (VStr (stripped_or_NA li2))).

(** A listing whose detail list has two items of its own, the first of
    them holding a list with one more item. *)
Definition fragment_with_nested_item : node :=
  Tag "li" ["clearfix"; "job-bx"; "wht-shd-bx"] ∅
    [ Tag "ul" ["top-jd-dtl"; "mt-16"; "clearfix"] ∅
        [ Tag "li" [] ∅
            [ NavigableString "Pune";
              Tag "ul" [] ∅ [ Tag "li" [] ∅ [NavigableString "East"] ] ];
          Tag "li" [] ∅ [NavigableString "2 yrs"] ] ].

(** A fetch error read as any answer whose status is not of the 2xx
    class, beside a request that raised. *)
Definition non_2xx (o : option response) : bool :=
  match o with
  | None => true
  | Some r => negb ((200 <=? status_code r)%Z && (status_code r <? 300)%Z)
  end.

(** The skipping rule read on that: after such a page the next one is
    requested. *)
Definition non_2xx_skips_page : Prop :=
  forall (s : session) (search_query location : string)
         (unfamiliar_skills : option (list string)) (max_pages N : Z),
    (1 <= N < max_pages)%Z ->
    non_2xx (s (build_search_url search_query location N)) = true ->
    (forall K, (1 <= K < N)%Z ->
       fragments_of (s (build_search_url search_query location K)) <> Some []) ->
    build_search_url search_query location (N + 1) ∈
      requested (run (scrape_jobs s search_query location unfamiliar_skills max_pages)).2.

(** A [str] the UTF-8 encoder accepts: no surrogate among its code
    points. *)
Definition encodable (s : Unicode.str) : bool :=
  forallb (fun c => negb (Unicode.is_surrogate c)) s.

(** No page of the search is answered with a listing. *)
Definition no_listing (s : session) (search_query location : Unicode.str) : Prop :=
  forall page url,
    Unicode.build_search_url search_query location page = Ok url ->
    fragments_of (s url) = None \/ fragments_of (s url) = Some [].

(** [scrape_jobs] returns a list for every input. *)
Definition returns_for_every_input : Prop :=
  forall (s : session) (search_query location : Unicode.str)
         (unfamiliar_skills : option (list string)) (max_pages : Z),
    exists l tr,
      run (Unicode.scrape_jobs s search_query location unfamiliar_skills max_pages) =
      (Ok l, tr).

(** ** Sample markup and sites *)

Definition element (name : string) (classes : list string) (contents : list node)
  : node :=
  Tag name classes ∅ contents.

(** A listing with a company, three skills in [span] tags, a detail list
    of three items whose second one is blank, and a link. *)
Definition sample_listing (company : string) : node :=
  element "li" ["clearfix"; "job-bx"; "wht-shd-bx"]
    [ element "h3" ["joblist-comp-name"] [NavigableString ("  " +:+ company +:+ " ")];
      element "div" ["more-skills-sections"]
        [ text_span "Go"; text_span "SQL"; text_span "Go" ];
      element "ul" ["top-jd-dtl"; "mt-16"; "clearfix"]
        [ element "li" [] [NavigableString "Pune"];
          element "li" [] [NavigableString "  "];
          element "li" [] [NavigableString " 3 LPA"] ];
      Tag "a" [] {[ "href" := "/job/42" ]} [] ].

(** A listing with none of the parts the extractor looks for. *)
Definition bare_listing : node :=
  element "li" ["clearfix"; "job-bx"; "wht-shd-bx"] [NavigableString "hiring"].

(** A page answered with status 200 whose body holds the listings. *)
Definition page_with (listings : list node) : option response :=
  Some (Response 200 (Some (element "html" [] listings))).

(** Two listings on page 1, none on page 2, one on every other page. *)
Definition site_two_then_none : session := fun u =>
  if String.eqb u (build_search_url "python" "" 1)
  then page_with [sample_listing "Acme"; sample_listing "Bolt"]
  else if String.eqb u (build_search_url "python" "" 2) then page_with []
  else page_with [sample_listing "Core"].

(** Page 2 times out; every other page holds one listing. *)
Definition site_page2_down : session := fun u =>
  if String.eqb u (build_search_url "python" "" 2) then None
  else page_with [sample_listing "Core"].

(** No request gets an answer. *)
Definition site_down : session := fun _ => None.

(** Two records, one without skills and one with a skill. *)
Definition job_without_skills : job :=
  job_record "Acme" "Clerk" [] NA NA NA NA NA NA.

Definition job_with_skill : job :=
  job_record "Bolt" "Engineer" ["JavaScript"] NA NA NA NA NA NA.

(** Page 2 is answered with status 304 and an empty body; every other
    page holds one listing. *)
Definition site_page2_not_modified : session := fun u =>
  if String.eqb u (build_search_url "python" "" 2)
  then Some (Response 304 (Some (element "[document]" [] [])))
  else page_with [sample_listing "Core"].

(** Page 2 is answered with status 503; every other page holds one
    listing. *)
Definition site_page2_unavailable : session := fun u =>
  if String.eqb u (build_search_url "python" "" 2)
  then Some (Response 503 (Some (element "html" [] [sample_listing "Core"])))
  else page_with [sample_listing "Core"].

(** A query holding the lone surrogate U+D800. *)
Definition query_with_surrogate : Unicode.str :=
  Unicode.of_latin1 "py" ++ [55296%N].

(** ** Front ends: the command line and the dashboard *)

(** What the two front ends compute around [scrape_jobs].  A failure
    of their own code (a missing key, a value of the wrong type) is
    [None]; what they print or draw is not modelled. *)

(** [s.split(sep)] for a separator of one character. *)
Fixpoint str_split (s : string) (sep : ascii) : list string :=
  match s with
  | EmptyString => [""]
  | String c s' =>
      if Ascii.eqb c sep then "" :: str_split s' sep
      else match str_split s' sep with
           | first :: others => String c first :: others
           | [] => [String c ""]
           end
  end.

(** [[skill.strip() for skill in unfamiliar_input.split(',') if skill.strip()]],
    as both front ends read the skills to avoid. *)
Definition parse_unfamiliar (unfamiliar_input : string) : list string :=
  map strip
    (List.filter (fun skill => negb (is_empty (strip skill)))
       (str_split unfamiliar_input ",")).

(** Iterating over a field value: the elements of a list, the
    characters of a string. *)
Definition iter_value (v : value) : list string :=
  match v with
  | VList l => l
  | VStr s => chars s
  end.

(** [job[key].lower()]: the key must be there and hold a string. *)
Definition getitem_lower (j : job) (key : string) : option string :=
  match j !! key with
  | Some (VStr s) => Some (lower s)
  | _ => None
  end.

(** The test of the dashboard's text filter on one record; [or] does
    not look at the title when the company matches. *)
Definition card_shown (search_filter : string) (j : job) : option bool :=
  company ← getitem_lower j "company";
  if contains company (lower search_filter) then Some true
  else
    job_title ← getitem_lower j "job_title";
    Some (contains job_title (lower search_filter)).

Fixpoint cards_shown (search_filter : string) (jobs : list job) : option (list job) :=
  match jobs with
  | [] => Some []
  | j :: rest =>
      shown ← card_shown search_filter j;
      others ← cards_shown search_filter rest;
      Some (if shown : bool then j :: others else others)
  end.

(** [filtered_jobs] of the Jobs tab: all the records when the filter is
    empty. *)
Definition filter_cards (search_filter : string) (jobs_data : list job)
  : option (list job) :=
  if is_empty search_filter then Some jobs_data
  else cards_shown search_filter jobs_data.

(** The company names that count: [job['company']] of every record
    where it is not the sentinel. *)
Fixpoint named_companies (jobs : list job) : option (list string) :=
  match jobs with
  | [] => Some []
  | j :: rest =>
      match j !! "company" with
      | Some (VStr company) =>
          others ← named_companies rest;
          Some (if String.eqb company NA then others else company :: others)
      | _ => None
      end
  end.

(** [all_skills], extended with [job['skills']] of every record. *)
Fixpoint gather_skills (jobs : list job) (all_skills : list string)
  : option (list string) :=
  match jobs with
  | [] => Some all_skills
  | j :: rest =>
      skills ← j !! "skills";
      gather_skills rest (all_skills ++ iter_value skills)
  end.

(** [skill_counts[skill] = skill_counts.get(skill, 0) + 1] on a dict
    that keeps the order of insertion. *)
Fixpoint count_skill (skill_counts : list (string * nat)) (skill : string)
  : list (string * nat) :=
  match skill_counts with
  | [] => [(skill, 1)]
  | (k, n) :: others =>
      if String.eqb k skill then (k, n + 1) :: others
      else (k, n) :: count_skill others skill
  end.

Definition count_skills (all_skills : list string) : list (string * nat) :=
  fold_left count_skill all_skills [].

(** [sorted(items, key=lambda x: x[1], reverse=True)]: by decreasing
    count, items of equal count in their order in [items]. *)
Fixpoint insert_by_count (x : string * nat) (sorted : list (string * nat))
  : list (string * nat) :=
  match sorted with
  | [] => [x]
  | y :: others =>
      if (x.2 <? y.2) then y :: insert_by_count x others else x :: sorted
  end.

Definition sorted_by_count (items : list (string * nat)) : list (string * nat) :=
  foldr insert_by_count [] items.

Definition top_skills (skill_counts : list (string * nat)) : list (string * nat) :=
  take 10 (sorted_by_count skill_counts).

(** What the Analytics tab shows. *)
Record analytics : Type := Analytics {
  total_jobs : nat;
  companies : nat;
  unique_skills : nat;
  chart : option (list string * list nat)
}.

(** [create_simple_analytics]: nothing for an empty list ([Some None]);
    [None] when a record lacks a key or holds a list as its company. *)
Definition create_simple_analytics (jobs : list job) : option (option analytics) :=
  match jobs with
  | [] => Some None
  | _ :: _ =>
      names ← named_companies jobs;
      let unique_companies := size (list_to_set names : gset string) in
      all_skills ← gather_skills jobs [];
      let unique_skills := size (list_to_set all_skills : gset string) in
      let chart :=
        match all_skills with
        | [] => None
        | _ :: _ =>
            match top_skills (count_skills all_skills) with
            | [] => None
            | top => Some (map fst top, map snd top)
            end
        end in
      Some (Some (Analytics (length jobs) unique_companies unique_skills chart))
  end.

(** One row of the export table, columns in the order of the dict
    literal. *)
Definition export_row (j : job) : option (list (string * value)) :=
  job_title ← j !! "job_title";
  company ← j !! "company";
  skills ← j !! "skills";
  experience ← j !! "experience";
  location ← j !! "location";
  salary ← j !! "salary";
  posted_date ← j !! "posted_date";
  job_description ← j !! "job_description";
  more_info ← j !! "more_info";
  Some [ ("Job Title", job_title);
         ("Company", company);
         ("Skills", VStr (join ", " (iter_value skills)));
         ("Experience", experience);
         ("Location", location);
         ("Salary", salary);
         ("Posted Date", posted_date);
         ("Job Description", job_description);
         ("More Info", more_info) ].

(** [df_data] *)
Fixpoint export_rows (jobs_data : list job) : option (list (list (string * value))) :=
  match jobs_data with
  | [] => Some []
  | j :: rest =>
      row ← export_row j;
      rows ← export_rows rest;
      Some (row :: rows)
  end.

(** ** Vocabulary of the further statements *)

(** Number of occurrences of a character in a string. *)
Fixpoint count_char (c : ascii) (s : string) : nat :=
  match s with
  | EmptyString => 0
  | String x s' => (if Ascii.eqb x c then 1 else 0) + count_char c s'
  end.

(** The characters [quote_plus] can produce. *)
Definition is_quoted_char (c : ascii) : bool :=
  always_safe c || Ascii.eqb c "+" || Ascii.eqb c "%".

(** The pages the loop goes through: those before the first page that
    is answered without a listing, and that page. *)
Fixpoint attempted (s : session) (search_query location : string) (pages : list Z)
  : list Z :=
  match pages with
  | [] => []
  | page :: rest =>
      match fragments_of (s (build_search_url search_query location page)) with
      | Some [] => [page]
      | _ => page :: attempted s search_query location rest
      end
  end.

(** What one page adds to the trace: its request, and a pause when it
    holds a listing. *)
Definition page_events (s : session) (search_query location : string) (page : Z)
  : list event :=
  HttpGet (build_search_url search_query location page) 10 ::
  match fragments_of (s (build_search_url search_query location page)) with
  | Some (_ :: _) => [Sleep 2]
  | _ => []
  end.

(** What one page adds to the records: one record for each listing. *)
Definition page_records (s : session) (search_query location : string) (page : Z)
  : list job :=
  match fragments_of (s (build_search_url search_query location page)) with
  | Some job_elements => omap extract_job_info job_elements
  | None => []
  end.

(** The fields that hold a trimmed text. *)
Definition trimmed_fields : list string :=
  [ "company"; "job_title"; "experience"; "salary"; "location";
    "job_description"; "posted_date" ].

(** A skill as the front ends hand it to the filter: not empty, trimmed,
    without a comma. *)
Definition clean_skill (t : string) : Prop :=
  t <> "" /\ strip t = t /\ count_char "," t = 0.

(** White space and commas only. *)
Definition is_blank_or_comma (c : ascii) : bool := is_space c || Ascii.eqb c ",".

(** The text filter in words: the filter, lower-cased, is a substring of
    the company or of the job title, lower-cased. *)
Definition card_matches (search_filter : string) (j : job) : Prop :=
  exists k s, (k = "company" \/ k = "job_title") /\ j !! k = Some (VStr s) /\
    substring (lower search_filter) (lower s).

(** How many times a skill is listed. *)
Definition times (skill : string) (all_skills : list string) : nat :=
  length (List.filter (String.eqb skill) all_skills).

(** The count a dict holds for a key, 0 for a key it does not hold. *)
Fixpoint tally (skill_counts : list (string * nat)) (skill : string) : nat :=
  match skill_counts with
  | [] => 0
  | (k, n) :: others => if String.eqb k skill then n else tally others skill
  end.

(** Decreasing counts. *)
Definition by_count : relation (string * nat) := fun x y => y.2 <= x.2.

(** A record the export keeps apart from every other one: complete, its
    skills not empty and without a comma. *)
Definition exportable (j : job) : Prop :=
  complete j /\ Forall clean_skill (get_skills j).

(** ** More sample data *)

(** Every page holds one listing. *)
Definition site_always : session := fun _ => page_with [sample_listing "Core"].

(** The record of [sample_listing "Acme"]. *)
Definition acme_record : job :=
  job_record "Acme" NA ["Go"; "SQL"; "Go"] NA "3 LPA" "Pune" NA NA "/job/42".

(** * Properties *)

(** ** Strings *)

Section StringFacts.

Import PyStr.

Lemma append_empty_r (s : string) : s +:+ "" = s.
Proof. induction s as [|c s IH]; simpl; [done | by rewrite IH]. Qed.

Lemma append_assoc (a b c : string) : (a +:+ b) +:+ c = a +:+ b +:+ c.
Proof. induction a as [|x a IH]; simpl; [done | by rewrite IH]. Qed.

Lemma ascii_eqb_true (a b : ascii) : Ascii.eqb a b = true <-> a = b.
Proof. apply Ascii.eqb_eq. Qed.

Lemma startswith_spec (s p : string) :
  startswith s p = true <-> exists b, s = p +:+ b.
Proof.
  revert s. induction p as [|a p IH]; intros s; simpl.
  - split; [intros _; by exists s | done].
  - destruct s as [|c s]; simpl.
    + split; [done | intros [b Hb]; discriminate].
    + rewrite andb_true_iff, ascii_eqb_true, IH. split.
      * intros [-> [b ->]]. by exists b.
      * intros [b Hb]. injection Hb as -> ->. split; [done | by exists b].
Qed.

Lemma startswith_app (p s : string) : startswith (p +:+ s) p = true.
Proof. apply startswith_spec. by exists s. Qed.

(** Python's [in] on strings is the substring relation. *)
Lemma contains_spec (hay needle : string) :
  contains hay needle = true <-> substring needle hay.
Proof.
  unfold substring. induction hay as [|c hay IH]; simpl.
  - rewrite orb_false_r, startswith_spec. split.
    + intros [b Hb]. by exists "", b.
    + intros [[|x a] [b Hb]]; [by exists b | discriminate].
  - rewrite orb_true_iff, startswith_spec, IH. split.
    + intros [[b Hb] | (a & b & Hab)].
      * by exists "", b.
      * exists (String c a), b. simpl. by rewrite Hab.
    + intros [[|x a] [b Hb]].
      * left. by exists b.
      * right. simpl in Hb. injection Hb as -> ->. by exists a, b.
Qed.

Lemma contains_empty (hay : string) : contains hay "" = true.
Proof. by destruct hay. Qed.

Lemma contains_occurrences (hay needle : string) :
  contains hay needle = negb (Nat.eqb (occurrences hay needle) 0).
Proof.
  induction hay as [|c hay IH]; simpl.
  - by destruct (startswith "" needle).
  - rewrite IH. by destruct (startswith (String c hay) needle).
Qed.

(** Lower-casing neither makes nor removes white space. *)
Lemma is_space_lower_char (c : ascii) : is_space (lower_char c) = is_space c.
Proof. destruct c as [[] [] [] [] [] [] [] []]; reflexivity. Qed.

Lemma lstrip_lower (s : string) : lstrip (lower s) = lower (lstrip s).
Proof.
  induction s as [|c s IH]; simpl; [done |].
  rewrite is_space_lower_char. by destruct (is_space c).
Qed.

Lemma is_empty_lower (s : string) : is_empty (lower s) = is_empty s.
Proof. by destruct s. Qed.

Lemma rstrip_lower (s : string) : rstrip (lower s) = lower (rstrip s).
Proof.
  induction s as [|c s IH]; simpl; [done |].
  rewrite IH, is_space_lower_char, is_empty_lower.
  by destruct (is_space c && is_empty (rstrip s)).
Qed.

Lemma strip_lower (s : string) : strip (lower s) = lower (strip s).
Proof. unfold strip. by rewrite lstrip_lower, rstrip_lower. Qed.

End StringFacts.

(** ** Skill filter *)

Section FilterFacts.

Import PyStr.

Lemma existsb_elem_of {A} (f : A -> bool) (l : list A) :
  existsb f l = true <-> exists x, x ∈ l /\ f x = true.
Proof.
  rewrite existsb_exists. setoid_rewrite list_elem_of_In. done.
Qed.

(** The test of the code decides the rule of the specification. *)
Lemma has_unfamiliar_spec (unfamiliar_skills : list string) (j : job) :
  has_unfamiliar unfamiliar_skills j = true <->
  requires_unfamiliar unfamiliar_skills j.
Proof.
  unfold has_unfamiliar, requires_unfamiliar.
  rewrite existsb_elem_of. split.
  - intros (u' & Hu' & Hex).
    apply list_elem_of_fmap in Hu' as (u & -> & Hu).
    apply existsb_elem_of in Hex as (t' & Ht' & Hin).
    apply list_elem_of_fmap in Ht' as (t & -> & Ht).
    exists u, t. by rewrite <- contains_spec.
  - intros (u & t & Hu & Ht & Hsub).
    exists (strip (lower u)). split.
    + apply list_elem_of_fmap. by exists u.
    + apply existsb_elem_of. exists (lower t). split.
      * apply list_elem_of_fmap. by exists t.
      * by apply contains_spec.
Qed.

Lemma filter_loop_acc (unfamiliar_skills : list string) (jobs acc : list job) :
  filter_loop unfamiliar_skills jobs acc =
  acc ++ List.filter (fun j => negb (has_unfamiliar unfamiliar_skills j)) jobs.
Proof.
  revert acc. induction jobs as [|j jobs IH]; intros acc; simpl.
  - by rewrite app_nil_r.
  - destruct (negb (has_unfamiliar unfamiliar_skills j)); rewrite IH.
    + by rewrite <- app_assoc.
    + done.
Qed.

Lemma filter_jobs_by_skills_filter (jobs : list job) (unfamiliar_skills : list string) :
  filter_jobs_by_skills jobs unfamiliar_skills =
  List.filter (fun j => negb (has_unfamiliar unfamiliar_skills j)) jobs.
Proof. unfold filter_jobs_by_skills. by rewrite filter_loop_acc. Qed.

Lemma filter_jobs_by_skills_nil_unfamiliar (jobs : list job) :
  filter_jobs_by_skills jobs [] = jobs.
Proof.
  rewrite filter_jobs_by_skills_filter.
  induction jobs as [|j jobs IH]; [done |].
  cbn [List.filter]. change (has_unfamiliar [] j) with false.
  cbn [negb]. f_equal. exact IH.
Qed.

Lemma elem_of_filter_jobs (jobs : list job) (unfamiliar_skills : list string) (j : job) :
  j ∈ filter_jobs_by_skills jobs unfamiliar_skills <->
  j ∈ jobs /\ has_unfamiliar unfamiliar_skills j = false.
Proof.
  rewrite filter_jobs_by_skills_filter, !list_elem_of_In, filter_In.
  by rewrite negb_true_iff.
Qed.

(** C1. The filter returns exactly the records of the input, in input
    order and as they are, that pass a test which holds of a record if
    and only if no entry of the unfamiliar list, lower-cased and
    trimmed, is a substring of one of its skill tokens, lower-cased;
    with an empty unfamiliar list the output is the input. *)
Theorem filter_jobs_by_skills_spec (jobs : list job) (unfamiliar_skills : list string) :
  (exists keep : job -> bool,
      (forall j, keep j = true <-> ~ requires_unfamiliar unfamiliar_skills j) /\
      filter_jobs_by_skills jobs unfamiliar_skills = List.filter keep jobs) /\
  filter_jobs_by_skills jobs [] = jobs.
Proof.
  split; [| apply filter_jobs_by_skills_nil_unfamiliar].
  exists (fun j => negb (has_unfamiliar unfamiliar_skills j)). split.
  - intros j. rewrite <- has_unfamiliar_spec, negb_true_iff.
    by destruct (has_unfamiliar unfamiliar_skills j).
  - apply filter_jobs_by_skills_filter.
Qed.

Lemma filter_idem {A} (f : A -> bool) (l : list A) :
  List.filter f (List.filter f l) = List.filter f l.
Proof.
  induction l as [|x l IH]; simpl; [done |].
  destruct (f x) eqn:Hx; simpl; [by rewrite Hx, IH | done].
Qed.

(** C9. Filtering the output of the filter again, with the same
    unfamiliar list, returns that output. *)
Theorem filter_jobs_by_skills_idempotent (jobs : list job) (unfamiliar_skills : list string) :
  filter_jobs_by_skills (filter_jobs_by_skills jobs unfamiliar_skills) unfamiliar_skills =
  filter_jobs_by_skills jobs unfamiliar_skills.
Proof. rewrite !filter_jobs_by_skills_filter. apply filter_idem. Qed.

Lemma has_unfamiliar_no_skills (unfamiliar_skills : list string) (j : job) :
  get_skills j = [] -> has_unfamiliar unfamiliar_skills j = false.
Proof.
  intros H. unfold has_unfamiliar. rewrite H. simpl.
  induction unfamiliar_skills as [|u us IH]; simpl; done.
Qed.

Lemma strip_empty_lower (e : string) : strip e = "" -> strip (lower e) = "".
Proof. intros H. by rewrite strip_lower, H. Qed.

Lemma has_unfamiliar_blank_entry (unfamiliar_skills : list string) (e : string) (j : job) :
  e ∈ unfamiliar_skills -> strip e = "" -> get_skills j <> [] ->
  has_unfamiliar unfamiliar_skills j = true.
Proof.
  intros He Hblank Hsk. unfold has_unfamiliar.
  apply existsb_elem_of. exists "". split.
  - apply list_elem_of_fmap. exists e. by rewrite strip_empty_lower.
  - destruct (get_skills j) as [|t ts]; [done |]. simpl.
    by rewrite contains_empty.
Qed.

(** C10. A record without skill tokens is kept whatever the unfamiliar
    list is; and when an entry of the unfamiliar list is empty once
    trimmed, no record with a skill token is kept. *)
Theorem filter_jobs_by_skills_edge_cases
    (jobs : list job) (unfamiliar_skills : list string) (j : job) :
  (j ∈ jobs -> get_skills j = [] ->
   j ∈ filter_jobs_by_skills jobs unfamiliar_skills) /\
  (forall e, e ∈ unfamiliar_skills -> strip e = "" -> get_skills j <> [] ->
     j ∉ filter_jobs_by_skills jobs unfamiliar_skills).
Proof.
  split.
  - intros Hin Hsk. apply elem_of_filter_jobs.
    split; [done | by apply has_unfamiliar_no_skills].
  - intros e He Hblank Hsk [_ Hkeep]%elem_of_filter_jobs.
    by rewrite (has_unfamiliar_blank_entry _ e) in Hkeep.
Qed.

End FilterFacts.

(** ** URL builder *)

Section UrlFacts.

Lemma all_chars_app P a b : all_chars P (a +:+ b) = all_chars P a && all_chars P b.
Proof. induction a as [|c a IH]; simpl; [done | by rewrite IH, andb_assoc]. Qed.

Lemma all_chars_impl (P Q : ascii -> bool) s :
  (forall c, P c = true -> Q c = true) -> all_chars P s = true -> all_chars Q s = true.
Proof.
  intros HPQ. induction s as [|c s IH]; simpl; [done |].
  rewrite !andb_true_iff. intros [? ?]. auto.
Qed.

Lemma quote_byte_plain (b : ascii) : all_chars (is_not "=") (quote_byte b) = true.
Proof. destruct b as [[] [] [] [] [] [] [] []]; reflexivity. Qed.

Lemma quote_bytes_plain (bs : string) : all_chars (is_not "=") (quote_bytes bs) = true.
Proof.
  induction bs as [|b bs IH]; simpl; [done |].
  by rewrite all_chars_app, quote_byte_plain, IH.
Qed.

Lemma pretty_N_go_chars (x : N) (s : string) :
  all_chars is_int_char s = true -> all_chars is_int_char (pretty_N_go x s) = true.
Proof.
  revert s. induction (N.lt_wf_0 x) as [x _ IH]; intros s Hs.
  destruct (decide (x = 0)%N) as [-> | Hx].
  - by rewrite pretty_N_go_0.
  - rewrite pretty_N_go_step by lia. apply IH.
    + apply N.div_lt; lia.
    + simpl. rewrite Hs, andb_true_r.
      unfold pretty_N_char. by repeat case_match.
Qed.

Lemma str_of_int_chars (n : Z) : all_chars is_int_char (str_of_int n) = true.
Proof.
  assert (forall x : N, all_chars is_int_char (pretty x) = true) as HN.
  { intros x. unfold pretty, pretty_N. case_decide; [done |].
    by apply pretty_N_go_chars. }
  unfold str_of_int, pretty, pretty_Z. destruct n as [|p|p]; [done | apply HN |].
  simpl. apply HN.
Qed.

Lemma is_int_char_safe (c : ascii) : is_int_char c = true -> quote_byte c = String c "" /\ utf8_char c = String c "".
Proof. destruct c as [[] [] [] [] [] [] [] []]; try discriminate; by split. Qed.

Lemma quote_plus_int_chars (s : string) : all_chars is_int_char s = true -> quote_plus s = s.
Proof.
  unfold quote_plus. induction s as [|c s IH]; simpl; [done |].
  rewrite andb_true_iff. intros [Hc Hs]. apply is_int_char_safe in Hc as [Hq Hu].
  rewrite Hu. simpl. rewrite Hq. simpl. by rewrite IH.
Qed.

Lemma quote_plus_str_of_int (n : Z) : quote_plus (str_of_int n) = str_of_int n.
Proof. apply quote_plus_int_chars, str_of_int_chars. Qed.

Lemma is_not_eqb (x c : ascii) : is_not x c = true -> Ascii.eqb x c = false.
Proof. unfold is_not. by rewrite negb_true_iff. Qed.

Lemma startswith_blocked (v K n : string) :
  all_chars (is_not "=") v = true ->
  K = "" \/ (exists K', K = String "&" K') ->
  eq_before_amp n = true ->
  startswith (v +:+ K) n = false.
Proof.
  intros Hv HK. revert n. induction v as [|c v IH]; intros [|a n] Hn; try done.
  - cbn [String.append]. destruct HK as [-> | [K' ->]]; [done |].
    cbn [startswith eq_before_amp] in *.
    destruct (Ascii.eqb a "=") eqn:E; [by apply Ascii.eqb_eq in E as -> |].
    by destruct (Ascii.eqb a "&").
  - cbn [all_chars] in Hv. apply andb_true_iff in Hv as [Hc Hv].
    cbn [String.append startswith eq_before_amp] in *.
    destruct (Ascii.eqb a "=") eqn:E.
    + apply Ascii.eqb_eq in E as ->. by rewrite (is_not_eqb _ _ Hc).
    + destruct (Ascii.eqb a "&"); [done |].
      rewrite (IH Hv n Hn). apply andb_false_r.
Qed.

Lemma occurrences_blocked (v K n : string) :
  all_chars (is_not "=") v = true ->
  K = "" \/ (exists K', K = String "&" K') ->
  eq_before_amp n = true ->
  occurrences (v +:+ K) n = occurrences K n.
Proof.
  intros Hv HK Hn. induction v as [|c v IH]; [done |].
  change (String c v +:+ K) with (String c (v +:+ K)).
  cbn [occurrences].
  change (String c (v +:+ K)) with (String c v +:+ K) at 1.
  rewrite startswith_blocked by done.
  cbn [all_chars] in Hv. apply andb_true_iff in Hv as [_ Hv]. by rewrite IH.
Qed.

Lemma occurrences_blocked_end (v n : string) :
  all_chars (is_not "=") v = true ->
  eq_before_amp n = true ->
  occurrences v n = 0.
Proof.
  intros Hv Hn. rewrite <- (append_empty_r v).
  rewrite occurrences_blocked by auto.
  by destruct n.
Qed.

Ltac skip_value v :=
  first [ rewrite (occurrences_blocked v) by (try done; right; eauto)
        | rewrite (occurrences_blocked_end v) by done ].

Lemma build_search_url_shape (q loc : string) (page : Z) :
  build_search_url q loc page =
  url_shape (quote_plus q) (str_of_int page) (location_param loc).
Proof.
  unfold build_search_url, search_params, url_shape, location_param.
  destruct loc as [|c loc]; cbn [is_empty dict_set String.eqb Ascii.eqb Bool.eqb map fst snd join];
  rewrite quote_plus_str_of_int;
  generalize (quote_plus q), (str_of_int page); intros Q P.
  - reflexivity.
  - generalize (quote_plus (String c loc)). intros T. reflexivity.
Qed.

Lemma occurrences_sequence (Q P T : string) (b : bool) :
  all_chars (is_not "=") Q = true -> all_chars (is_not "=") P = true ->
  all_chars (is_not "=") T = true ->
  occurrences (url_shape Q P (if b then "" else "&txtLocation=" +:+ T))
    ("sequence=" +:+ P) = 1.
Proof.
  intros HQ HP HT. unfold url_shape, base_url.
  simpl. skip_value Q.
  simpl. skip_value Q.
  simpl. rewrite startswith_app. skip_value P.
  destruct b; simpl; [done |].
  by skip_value T.
Qed.

Lemma occurrences_txtLocation (Q P T : string) (b : bool) :
  all_chars (is_not "=") Q = true -> all_chars (is_not "=") P = true ->
  all_chars (is_not "=") T = true ->
  occurrences (url_shape Q P (if b then "" else "&txtLocation=" +:+ T))
    "txtLocation=" = if b then 0 else 1.
Proof.
  intros HQ HP HT. unfold url_shape, base_url.
  simpl. skip_value Q.
  simpl. skip_value Q.
  simpl. skip_value P.
  destruct b; simpl; [done |].
  by skip_value T.
Qed.

Lemma quote_plus_no_eq (s : string) : all_chars (is_not "=") (quote_plus s) = true.
Proof. apply quote_bytes_plain. Qed.

Lemma str_of_int_no_eq (n : Z) : all_chars (is_not "=") (str_of_int n) = true.
Proof.
  eapply all_chars_impl, str_of_int_chars.
  intros c. destruct c as [[] [] [] [] [] [] [] []]; try discriminate; done.
Qed.

Lemma location_param_cases (loc : string) :
  location_param loc =
  if is_empty loc then "" else "&txtLocation=" +:+ quote_plus loc.
Proof. done. Qed.

(** C6. The URL is the base address followed by the parameters in one
    fixed order, so equal inputs give equal URLs; the text
    [sequence=<page>] starts at exactly one position of it; and it has a
    [txtLocation=] parameter if and only if the location is not empty. *)
Theorem build_search_url_spec (search_query location : string) (page : Z) :
  build_search_url search_query location page =
    url_shape (quote_plus search_query) (str_of_int page) (location_param location) /\
  occurrences (build_search_url search_query location page)
    ("sequence=" +:+ str_of_int page) = 1 /\
  (contains (build_search_url search_query location page) "txtLocation=" = true
   <-> location <> "").
Proof.
  rewrite build_search_url_shape, location_param_cases.
  split; [done |]. split.
  - apply occurrences_sequence;
      auto using quote_plus_no_eq, str_of_int_no_eq.
  - rewrite contains_occurrences, occurrences_txtLocation
      by auto using quote_plus_no_eq, str_of_int_no_eq.
    by destruct location.
Qed.

Lemma length_append (a b : string) :
  String.length (a +:+ b) = String.length a + String.length b.
Proof. induction a as [|x a IH]; simpl; [done | by rewrite IH]. Qed.

Lemma append_cancel_r (a b t : string) : a +:+ t = b +:+ t -> a = b.
Proof.
  intros H.
  assert (String.length a = String.length b) as Hlen.
  { apply (f_equal String.length) in H. rewrite !length_append in H. lia. }
  revert b H Hlen. induction a as [|x a IH]; intros [|y b] H Hlen; try done.
  simpl in H. injection H as -> H. f_equal. apply IH; [done | simpl in Hlen; lia].
Qed.

Lemma build_search_url_inj (q loc : string) (p1 p2 : Z) :
  build_search_url q loc p1 = build_search_url q loc p2 -> p1 = p2.
Proof.
  rewrite !build_search_url_shape. unfold url_shape. intros H.
  repeat apply String.app_inj in H.
  rewrite <- !append_assoc in H. do 2 apply append_cancel_r in H.
  by apply pretty_Z_inj in H.
Qed.

End UrlFacts.

(** ** Listing extractor *)

Section ExtractFacts.

Lemma matches_Tag name cls x :
  matches name cls x = true -> exists nm cl at_ cs, x = Tag nm cl at_ cs.
Proof. destruct x; [done | eauto]. Qed.

Lemma select_Tag n name cls x :
  x ∈ select n name cls -> exists nm cl at_ cs, x = Tag nm cl at_ cs.
Proof.
  unfold select. rewrite list_elem_of_In, filter_In. intros [_ H].
  by eapply matches_Tag.
Qed.

Lemma first_tag_Tag n name cls x :
  first_tag n name cls = Some x -> exists nm cl at_ cs, x = Tag nm cl at_ cs.
Proof.
  unfold first_tag. intros H. apply (select_Tag n name cls).
  destruct (select n name cls); simplify_eq/=. left.
Qed.

Lemma found_find n name cls x a b :
  first_tag n name cls = Some x -> find x a b = Ok (first_tag x a b).
Proof. by intros (? & ? & ? & ? & ->)%first_tag_Tag. Qed.

Lemma found_find_all n name cls x a b :
  first_tag n name cls = Some x -> find_all x a b = Ok (select x a b).
Proof. by intros (? & ? & ? & ? & ->)%first_tag_Tag. Qed.

Lemma found_get n name cls x k :
  first_tag n name cls = Some x -> get x k = Ok (attrs_of x !! k).
Proof. by intros (? & ? & ? & ? & ->)%first_tag_Tag. Qed.

Ltac run_binds := unfold mbind, result_bind, mret, result_ret; cbv beta iota.

Lemma extract_fields_Tag nm cl at_ cs :
  let je := Tag nm cl at_ cs in
  extract_fields je =
  Ok (job_record
        (text_or_NA (first_tag je "h3" (Some "joblist-comp-name")))
        (text_or_NA (first_tag je "h2" (Some "heading-trun")))
        (skills_in je)
        (details_in je).1.2 (details_in je).2 (details_in je).1.1
        (text_or_NA (first_tag je "li" (Some "job-description__")))
        (posted_in je)
        (link_in je)).
Proof.
  intros je. unfold extract_fields, skills_in, details_in, detail_items, posted_in, link_in.
  change (find je) with (fun a b => Ok (A:=option node) (first_tag je a b)).
  cbv beta. run_binds.
  destruct (first_tag je "div" _) as [sec|] eqn:Hsec;
    [rewrite (found_find_all _ _ _ _ _ _ Hsec) |]; run_binds;
  (destruct (first_tag je "ul" _) as [tot|] eqn:Htot;
    [rewrite (found_find_all _ _ _ _ _ _ Htot); run_binds;
     destruct (select tot "li" None) as [|li0 [|li1 [|li2 rest]]] |]); run_binds;
  (destruct (first_tag je "span" _) as [posted|] eqn:Hposted;
    [rewrite (found_find _ _ _ _ _ _ Hposted) |]); run_binds;
  (destruct (first_tag je "a" _) as [link|] eqn:Hlink;
    [rewrite (found_get _ _ _ _ _ Hlink) |]); run_binds;
  reflexivity.
Qed.

Lemma extract_job_info_Tag nm cl at_ cs :
  let je := Tag nm cl at_ cs in
  extract_job_info je =
  Some (job_record
        (text_or_NA (first_tag je "h3" (Some "joblist-comp-name")))
        (text_or_NA (first_tag je "h2" (Some "heading-trun")))
        (skills_in je)
        (details_in je).1.2 (details_in je).2 (details_in je).1.1
        (text_or_NA (first_tag je "li" (Some "job-description__")))
        (posted_in je)
        (link_in je)).
Proof. intros je. unfold extract_job_info. subst je. by rewrite extract_fields_Tag. Qed.

Lemma extract_job_info_NavigableString s :
  extract_fields (NavigableString s) = Raise TypeError /\
  extract_job_info (NavigableString s) = None.
Proof. done. Qed.

Lemma job_record_lookups co ti sk ex sa lo de po mo :
  let r := job_record co ti sk ex sa lo de po mo in
  r !! "company" = Some (VStr co) /\ r !! "job_title" = Some (VStr ti) /\
  r !! "skills" = Some (VList sk) /\ r !! "experience" = Some (VStr ex) /\
  r !! "salary" = Some (VStr sa) /\ r !! "location" = Some (VStr lo) /\
  r !! "job_description" = Some (VStr de) /\ r !! "posted_date" = Some (VStr po) /\
  r !! "more_info" = Some (VStr mo).
Proof. unfold job_record. repeat split; by simplify_map_eq. Qed.

Lemma job_record_complete co ti sk ex sa lo de po mo :
  complete (job_record co ti sk ex sa lo de po mo).
Proof.
  pose proof (job_record_lookups co ti sk ex sa lo de po mo) as H. cbv zeta in H.
  destruct H as (H1 & H2 & H3 & H4 & H5 & H6 & H7 & H8 & H9).
  split; [| split].
  - unfold job_record. rewrite !dom_insert_L, dom_empty_L. unfold field_names. simpl. set_solver.
  - intros k Hk Hne. unfold field_names in Hk.
    repeat (apply elem_of_cons in Hk as [-> | Hk]; [eauto; done |]).
    by apply elem_of_nil in Hk.
  - eauto.
Qed.

Lemma job_record_sentinels nm cl at_ cs :
  let je := Tag nm cl at_ cs in
  sentinel_on_missing je
    (job_record
        (text_or_NA (first_tag je "h3" (Some "joblist-comp-name")))
        (text_or_NA (first_tag je "h2" (Some "heading-trun")))
        (skills_in je)
        (details_in je).1.2 (details_in je).2 (details_in je).1.1
        (text_or_NA (first_tag je "li" (Some "job-description__")))
        (posted_in je)
        (link_in je)).
Proof.
  intros je.
  match goal with |- sentinel_on_missing _ (job_record ?a ?b ?c ?d ?e ?f ?g ?h ?i) =>
    destruct (job_record_lookups a b c d e f g h i)
      as (H1 & H2 & H3 & H4 & H5 & H6 & H7 & H8 & H9) end.
  unfold sentinel_on_missing.
  rewrite H1, H2, H3, H4, H5, H6, H7, H8, H9.
  unfold skills_in, details_in, detail_items, posted_in, link_in.
  repeat apply conj; intros Hm;
    try (destruct Hm as [Hm | (x & Hm & Hm')]); rewrite ?Hm, ?Hm'; done.
Qed.

(** C2. For every page element, either the body of [extract_job_info]
    raises and the function returns nothing, or it returns a record that
    has all nine fields, in which every field whose lookup fails holds
    the sentinel and [skills] the empty list.  No other outcome exists,
    so no record is returned with part of its fields. *)
Theorem extract_job_info_all_or_nothing (job_element : node) :
  (extract_job_info job_element = None /\
   exists e, extract_fields job_element = Raise e) \/
  (exists r, extract_job_info job_element = Some r /\
             extract_fields job_element = Ok r /\
             complete r /\ sentinel_on_missing job_element r).
Proof.
  destruct job_element as [t | nm cl at_ cs].
  - left. split; [done | by exists TypeError].
  - right. eexists. split; [apply extract_job_info_Tag |].
    split; [apply extract_fields_Tag |].
    split; [apply job_record_complete | apply job_record_sentinels].
Qed.

Lemma extract_job_info_Some (je : node) (r : job) :
  extract_job_info je = Some r ->
  r !! "skills" = Some (VList (skills_in je)) /\
  r !! "location" = Some (VStr (details_in je).1.1) /\
  r !! "experience" = Some (VStr (details_in je).1.2) /\
  r !! "salary" = Some (VStr (details_in je).2).
Proof.
  destruct je as [t | nm cl at_ cs]; [done |].
  rewrite extract_job_info_Tag. intros [= <-].
  match goal with |- context [job_record ?a ?b ?c ?d ?e ?f ?g ?h ?i] =>
    destruct (job_record_lookups a b c d e f g h i)
      as (H1 & H2 & H3 & H4 & H5 & H6 & H7 & H8 & H9) end.
  done.
Qed.

(** C7 as it is stated does not hold when the items are the list's own:
    a list with two items of its own, one of them holding a nested
    item, fills the three fields. *)
Lemma details_from_own_items_fails : ~ details_from_own_items.
Proof.
  intros H.
  assert (extract_job_info fragment_with_nested_item =
          Some (job_record NA NA [] "East" "2 yrs" "PuneEast" NA NA NA)) as Hex
    by (vm_compute; reflexivity).
  destruct (H _ _ Hex) as [Hfew _].
  assert (length (own_items fragment_with_nested_item) < 3) as Hlen
    by (vm_compute; lia).
  destruct (Hfew Hlen) as (Hexp & _). vm_compute in Hexp. discriminate Hexp.
Qed.

(** C7, amended. The items of the detail list are the [li] tags below
    it at any depth, in document order.  In a record extracted from a
    fragment, location, experience and salary all hold the sentinel when
    the detail list is absent or has fewer than three such items; with
    three items or more each of the three fields is the trimmed text of
    its own item among the first three, or the sentinel when that text
    is blank. *)
Theorem details_need_three_items (job_element : node) (r : job) :
  extract_job_info job_element = Some r ->
  (length (detail_items job_element) < 3 ->
   r !! "experience" = Some (VStr NA) /\ r !! "salary" = Some (VStr NA) /\
   r !! "location" = Some (VStr NA)) /\
  (forall li0 li1 li2 more,
     detail_items job_element = li0 :: li1 :: li2 :: more ->
     r !! "location" =
       Some (VStr (if is_empty (strip (text li0)) then NA else strip (text li0))) /\
     r !! "experience" =
       Some (VStr (if is_empty (strip (text li1)) then NA else strip (text li1))) /\
     r !! "salary" =
       Some (VStr (if is_empty (strip (text li2)) then NA else strip (text li2)))) /\
  (forall tot,
     first_tag job_element "ul" (Some "top-jd-dtl mt-16 clearfix") = Some tot ->
     detail_items job_element = select tot "li" None).
Proof.
  intros (_ & Hlo & Hex & Hsa)%extract_job_info_Some.
  rewrite Hlo, Hex, Hsa. unfold details_in. split; [| split].
  - intros Hlen.
    destruct (detail_items job_element) as [|li0 [|li1 [|li2 more]]]; try done.
    simpl in Hlen. lia.
  - by intros li0 li1 li2 more ->.
  - intros tot Htot. unfold detail_items. by rewrite Htot.
Qed.

(** C8 as it is stated does not hold: in a container holding a [span]
    and a link, the link is a child tag and gives no token. *)
Lemma skills_from_child_tags_fails : ~ skills_from_child_tags.
Proof.
  intros H.
  specialize (H fragment_with_link
                (Tag "div" ["more-skills-sections"] ∅
                   [ Tag "span" [] ∅ [NavigableString "Go"];
                     Tag "a" [] ∅ [NavigableString "SQL"] ])
                (job_record NA NA ["Go"] NA NA NA NA NA NA)
                eq_refl).
  assert (extract_job_info fragment_with_link =
          Some (job_record NA NA ["Go"] NA NA NA NA NA NA)) as Hex
    by (vm_compute; reflexivity).
  specialize (H Hex). vm_compute in H. discriminate H.
Qed.

Lemma select_text_spans nm cl at_ (texts : list string) :
  select (Tag nm cl at_ (map text_span texts)) "span" None = map text_span texts.
Proof.
  unfold select. cbn [descendants].
  induction texts as [|t texts IH]; [done |].
  cbn [map]. unfold text_span at 1 2. cbn [descendants app List.filter matches].
  cbn. f_equal. apply IH.
Qed.

Lemma strip_text_span (t : string) : strip (text (text_span t)) = strip t.
Proof. unfold text_span. cbn [text]. by rewrite append_empty_r. Qed.

(** C8, amended. In a record extracted from a fragment with a skills
    container, the skills are the trimmed texts of the [span] tags below
    the container, one token for each, in document order and with
    repetitions; when the container holds [span] tags with the texts
    Go, SQL, Go (or any other texts) the skills are those texts,
    trimmed; without a container the skills are the empty list. *)
Theorem skills_from_spans (job_element : node) (r : job) :
  extract_job_info job_element = Some r ->
  (forall section,
     first_tag job_element "div" (Some "more-skills-sections") = Some section ->
     r !! "skills" =
       Some (VList (map (fun sp => strip (text sp)) (select section "span" None)))) /\
  (first_tag job_element "div" (Some "more-skills-sections") = None ->
   r !! "skills" = Some (VList [])) /\
  (forall section texts,
     first_tag job_element "div" (Some "more-skills-sections") = Some section ->
     contents_of section = map text_span texts ->
     r !! "skills" = Some (VList (map strip texts))).
Proof.
  intros (Hsk & _)%extract_job_info_Some. rewrite Hsk. unfold skills_in.
  split; [by intros section -> |]. split; [by intros -> |].
  intros section texts Hsec Hcs. rewrite Hsec.
  destruct (first_tag_Tag _ _ _ _ Hsec) as (nm & cl & at_ & cs & ->).
  simpl in Hcs. subst cs. rewrite select_text_spans, map_map.
  do 2 f_equal. apply map_ext. intros t. apply strip_text_span.
Qed.

End ExtractFacts.

(** ** Pagination and pipeline *)

Section Pipeline.
Variable s : session.
Variables search_query location : string.
Abbreviation url := (build_search_url search_query location).

Lemma raise_for_status_cases (r : response) (tr : list event) :
  raise_for_status r tr =
  if error_status (status_code r) then (Raise HTTPError, tr) else (Ok tt, tr).
Proof.
  unfold raise_for_status, error_status.
  destruct (Z.leb_spec 400 (status_code r)), (Z.ltb_spec (status_code r) 500),
    (Z.leb_spec 500 (status_code r)), (Z.ltb_spec (status_code r) 600);
    try reflexivity; lia.
Qed.

Lemma try_page_cases (u : string) (all_jobs : list job) (tr : list event) :
  try_except (scrape_page s u all_jobs) (on_error all_jobs) tr =
  match fragments_of (s u) with
  | Some [] => (Ok (Break all_jobs), tr ++ [HttpGet u 10])
  | Some (e :: es) =>
      (Ok (Next (all_jobs ++ extract_page (e :: es) [])),
       (tr ++ [HttpGet u 10]) ++ [Sleep 2])
  | None => (Ok (Next all_jobs), tr ++ [HttpGet u 10])
  end.
Proof.
  unfold try_except, scrape_page, session_get, fragments_of, on_error.
  unfold mbind, M_bind, emit.
  destruct (s u) as [[c p]|]; [| reflexivity].
  unfold mret at 1, M_ret at 1. rewrite raise_for_status_cases. cbn [status_code].
  destruct (error_status c); [by destruct p as [[t|nm cl at_ cs]|] |].
  unfold BeautifulSoup, lift, find_all, sleep, emit, mret, M_ret.
  cbn [parsed].
  destruct p as [[t|nm cl at_ cs]|]; try reflexivity.
  by destruct (select _ _ _).
Qed.

Lemma scrape_pages_cons (page : Z) (rest : list Z) (all_jobs : list job) (tr : list event) :
  scrape_pages s search_query location (page :: rest) all_jobs tr =
  match fragments_of (s (url page)) with
  | Some [] => (Ok all_jobs, tr ++ [HttpGet (url page) 10])
  | Some (e :: es) =>
      scrape_pages s search_query location rest
        (all_jobs ++ extract_page (e :: es) [])
        ((tr ++ [HttpGet (url page) 10]) ++ [Sleep 2])
  | None =>
      scrape_pages s search_query location rest all_jobs
        (tr ++ [HttpGet (url page) 10])
  end.
Proof.
  cbn [scrape_pages]. unfold mbind at 1, M_bind at 1.
  rewrite try_page_cases.
  by destruct (fragments_of (s (url page))) as [[|e es]|].
Qed.

Lemma scrape_pages_returns (pages : list Z) (all_jobs : list job) (tr : list event) :
  exists l tr', scrape_pages s search_query location pages all_jobs tr = (Ok l, tr').
Proof.
  revert all_jobs tr. induction pages as [|page rest IH]; intros all_jobs tr.
  - by exists all_jobs, tr.
  - rewrite scrape_pages_cons.
    destruct (fragments_of (s (url page))) as [[|e es]|]; eauto.
Qed.

Lemma requested_app (tr1 tr2 : list event) :
  requested (tr1 ++ tr2) = requested tr1 ++ requested tr2.
Proof. apply omap_app. Qed.

(** The requests of the loop are those of a first part of the pages. *)
Lemma scrape_pages_requested (pages : list Z) (all_jobs : list job) (tr : list event) :
  exists d, d `prefix_of` pages /\
    requested (scrape_pages s search_query location pages all_jobs tr).2 =
    requested tr ++ map url d.
Proof.
  revert all_jobs tr. induction pages as [|page rest IH]; intros all_jobs tr.
  - exists []. split; [done |]. simpl. by rewrite app_nil_r.
  - rewrite scrape_pages_cons.
    destruct (fragments_of (s (url page))) as [[|e es]|].
    + exists [page]. split; [by apply prefix_cons, prefix_nil |].
      simpl. by rewrite requested_app.
    + destruct (IH (all_jobs ++ extract_page (e :: es) [])
                  ((tr ++ [HttpGet (url page) 10]) ++ [Sleep 2])) as (d & Hd & ->).
      exists (page :: d). split; [by apply prefix_cons |].
      rewrite !requested_app. simpl. by rewrite app_nil_r, <- app_assoc.
    + destruct (IH all_jobs (tr ++ [HttpGet (url page) 10])) as (d & Hd & ->).
      exists (page :: d). split; [by apply prefix_cons |].
      rewrite !requested_app. simpl. by rewrite <- app_assoc.
Qed.

(** With an empty page among them, the requests end at that page. *)
Lemma scrape_pages_stops (before after : list Z) (N : Z) (all_jobs : list job) (tr : list event) :
  fragments_of (s (url N)) = Some [] ->
  exists d, d `prefix_of` (before ++ [N]) /\
    requested (scrape_pages s search_query location (before ++ N :: after) all_jobs tr).2 =
    requested tr ++ map url d.
Proof.
  intros HN. revert all_jobs tr. induction before as [|page rest IH]; intros all_jobs tr.
  - cbn [app]. rewrite scrape_pages_cons, HN. exists [N]. split; [done |].
    simpl. by rewrite requested_app.
  - cbn [app]. rewrite scrape_pages_cons.
    destruct (fragments_of (s (url page))) as [[|e es]|].
    + exists [page]. split; [by apply prefix_cons, prefix_nil |].
      simpl. by rewrite requested_app.
    + destruct (IH (all_jobs ++ extract_page (e :: es) [])
                  ((tr ++ [HttpGet (url page) 10]) ++ [Sleep 2])) as (d & Hd & ->).
      exists (page :: d). split; [by apply prefix_cons |].
      rewrite !requested_app. simpl. by rewrite app_nil_r, <- app_assoc.
    + destruct (IH all_jobs (tr ++ [HttpGet (url page) 10])) as (d & Hd & ->).
      exists (page :: d). split; [by apply prefix_cons |].
      rewrite !requested_app. simpl. by rewrite <- app_assoc.
Qed.

(** Pages without an empty one are all gone through. *)
Lemma scrape_pages_passes (before rest : list Z) (all_jobs : list job) (tr : list event) :
  (forall K, K ∈ before -> fragments_of (s (url K)) <> Some []) ->
  exists all_jobs' tr',
    scrape_pages s search_query location (before ++ rest) all_jobs tr =
    scrape_pages s search_query location rest all_jobs' tr' /\
    requested tr' = requested tr ++ map url before.
Proof.
  revert all_jobs tr. induction before as [|page before IH]; intros all_jobs tr Hne.
  - exists all_jobs, tr. split; [done |]. simpl. by rewrite app_nil_r.
  - cbn [app]. rewrite scrape_pages_cons.
    assert (forall K, K ∈ before -> fragments_of (s (url K)) <> Some []) as Hne'.
    { intros K HK. apply Hne. by right. }
    pose proof (Hne page ltac:(left)) as Hpage.
    destruct (fragments_of (s (url page))) as [[|e es]|]; [done | |].
    + destruct (IH (all_jobs ++ extract_page (e :: es) [])
                  ((tr ++ [HttpGet (url page) 10]) ++ [Sleep 2]) Hne')
        as (a & t & -> & Ht).
      exists a, t. split; [done |]. rewrite Ht, !requested_app. simpl.
      by rewrite app_nil_r, <- app_assoc.
    + destruct (IH all_jobs (tr ++ [HttpGet (url page) 10]) Hne') as (a & t & -> & Ht).
      exists a, t. split; [done |]. rewrite Ht, !requested_app. simpl.
      by rewrite <- app_assoc.
Qed.


Lemma job_record_nonempty co ti sk ex sa lo de po mo :
  job_record co ti sk ex sa lo de po mo <> ∅.
Proof. unfold job_record. apply insert_non_empty. Qed.

Lemma extract_job_info_truthy (e : node) (r : job) :
  extract_job_info e = Some r -> truthy (Some r) = true.
Proof.
  destruct e as [t | nm cl at_ cs]; [done |].
  rewrite extract_job_info_Tag. intros [= <-]. simpl.
  rewrite bool_decide_eq_false_2; [done | apply job_record_nonempty].
Qed.

Lemma extract_page_omap (job_elements : list node) (page_jobs : list job) :
  extract_page job_elements page_jobs =
  page_jobs ++ omap extract_job_info job_elements.
Proof.
  revert page_jobs. induction job_elements as [|e es IH]; intros page_jobs.
  - by rewrite app_nil_r.
  - cbn [extract_page omap list_omap]. fold (omap extract_job_info es).
    destruct (extract_job_info e) as [r|] eqn:He; [| apply IH].
    rewrite (extract_job_info_truthy e r He), IH. by rewrite <- app_assoc.
Qed.

Lemma fragments_of_Tag (o : option response) (l : list node) (e : node) :
  fragments_of o = Some l -> e ∈ l -> exists nm cl at_ cs, e = Tag nm cl at_ cs.
Proof.
  destruct o as [[c [[t|nm cl at_ cs]|]]|]; try done.
  simpl. destruct (error_status c); [done |].
  intros [= <-]. apply select_Tag.
Qed.

Lemma fragment_extracts (o : option response) (l : list node) (e : node) :
  fragments_of o = Some l -> e ∈ l -> exists r, extract_job_info e = Some r.
Proof.
  intros Ho He. destruct (fragments_of_Tag o l e Ho He) as (nm & cl & at_ & cs & ->).
  rewrite extract_job_info_Tag. eauto.
Qed.

Lemma fetch_error_no_fragments (o : option response) :
  fetch_error o = true -> fragments_of o = None.
Proof.
  destruct o as [[c [[t|nm cl at_ cs]|]]|]; try done.
  simpl. by intros ->.
Qed.

Lemma run_scrape_jobs (unfamiliar_skills : option (list string)) (max_pages : Z) :
  run (scrape_jobs s search_query location unfamiliar_skills max_pages) =
  match scrape_pages s search_query location (py_range 1 (max_pages + 1)) [] [] with
  | (Ok all_jobs, tr) =>
      (Ok (filter_jobs_by_skills all_jobs (default [] unfamiliar_skills)), tr)
  | (Raise e, tr) => (Raise e, tr)
  end.
Proof. done. Qed.

Lemma run_scrape_jobs_trace (unfamiliar_skills : option (list string)) (max_pages : Z) :
  (run (scrape_jobs s search_query location unfamiliar_skills max_pages)).2 =
  (scrape_pages s search_query location (py_range 1 (max_pages + 1)) [] []).2.
Proof.
  rewrite run_scrape_jobs.
  by destruct (scrape_pages _ _ _ _ _ _) as [[a|e] tr].
Qed.

Lemma py_range_split (N max_pages : Z) :
  (1 <= N <= max_pages)%Z ->
  py_range 1 (max_pages + 1) =
  seqZ 1 (N - 1) ++ N :: seqZ (N + 1) (max_pages - N).
Proof.
  intros HN. unfold py_range.
  replace (max_pages + 1 - 1)%Z with ((N - 1) + (max_pages - N + 1))%Z by lia.
  rewrite seqZ_app by lia. f_equal.
  replace (1 + (N - 1))%Z with N by lia.
  rewrite seqZ_cons by lia. f_equal. f_equal; lia.
Qed.

(** C3. When page N, between 1 and the page limit, is answered with no
    listing, no page after N is requested, whatever the limit is.  With
    two listings on page 1, none on page 2 and a limit of 5, the run
    returns the two records of page 1 (filtered) and requests pages 1
    and 2 only. *)
Theorem empty_page_stops_pagination :
  (forall unfamiliar_skills max_pages N,
      (1 <= N <= max_pages)%Z ->
      fragments_of (s (url N)) = Some [] ->
      forall M, (N < M)%Z ->
        url M ∉ requested
          (run (scrape_jobs s search_query location unfamiliar_skills max_pages)).2) /\
  (forall unfamiliar_skills e1 e2,
      fragments_of (s (url 1)) = Some [e1; e2] ->
      fragments_of (s (url 2)) = Some [] ->
      exists r1 r2,
        extract_job_info e1 = Some r1 /\ extract_job_info e2 = Some r2 /\
        run (scrape_jobs s search_query location unfamiliar_skills 5) =
        (Ok (filter_jobs_by_skills [r1; r2] (default [] unfamiliar_skills)),
         [HttpGet (url 1) 10; Sleep 2; HttpGet (url 2) 10])).
Proof.
  split.
  - intros unf max_pages N HN Hempty M HM Hin.
    rewrite run_scrape_jobs_trace, (py_range_split N max_pages HN) in Hin.
    destruct (scrape_pages_stops (seqZ 1 (N - 1)) (seqZ (N + 1) (max_pages - N))
                N [] [] Hempty) as (d & Hd & Hreq).
    rewrite Hreq in Hin. simpl in Hin.
    apply list_elem_of_fmap in Hin as (K & HK & HKd).
    apply build_search_url_inj in HK as <-.
    destruct Hd as [k Hk].
    assert (M ∈ seqZ 1 (N - 1) ++ [N]) as HMin.
    { rewrite Hk. apply elem_of_app. by left. }
    apply elem_of_app in HMin as [HMin | HMin%list_elem_of_singleton].
    + apply elem_of_seqZ in HMin. lia.
    + lia.
  - intros unf e1 e2 H1 H2.
    destruct (fragment_extracts _ _ e1 H1) as [r1 Hr1]; [left |].
    destruct (fragment_extracts _ _ e2 H1) as [r2 Hr2]; [right; left |].
    exists r1, r2. split; [done |]. split; [done |].
    rewrite run_scrape_jobs.
    change (py_range 1 (5 + 1)) with [1; 2; 3; 4; 5]%Z.
    rewrite scrape_pages_cons, H1, scrape_pages_cons, H2.
    rewrite extract_page_omap. simpl. by rewrite Hr1, Hr2.
Qed.


Lemma scrape_pages_requests_first (page : Z) (rest : list Z) (all_jobs : list job) (tr : list event) :
  url page ∈ requested (scrape_pages s search_query location (page :: rest) all_jobs tr).2.
Proof.
  rewrite scrape_pages_cons.
  assert (url page ∈ requested (tr ++ [HttpGet (url page) 10])) as Hhere.
  { rewrite requested_app. apply elem_of_app. right. simpl. left. }
  destruct (fragments_of (s (url page))) as [[|e es]|]; [done | |].
  - destruct (scrape_pages_requested rest (all_jobs ++ extract_page (e :: es) [])
                ((tr ++ [HttpGet (url page) 10]) ++ [Sleep 2])) as (d' & _ & ->).
    apply elem_of_app. left. rewrite requested_app. apply elem_of_app. by left.
  - destruct (scrape_pages_requested rest all_jobs
                (tr ++ [HttpGet (url page) 10])) as (d' & _ & ->).
    apply elem_of_app. by left.
Qed.

(** C4 as it is stated does not hold for every status outside the 2xx
    class: an answer with status 304 passes [raise_for_status], its
    empty body holds no listing and the loop stops there, so that page
    3 is not requested. *)
Lemma non_2xx_skips_page_fails : ~ non_2xx_skips_page.
Proof.
  intros H.
  specialize (H site_page2_not_modified "python" "" None 3%Z 2%Z).
  assert (build_search_url "python" "" (2 + 1) ∉
          requested (run (scrape_jobs site_page2_not_modified "python" "" None 3)).2)
    as Hnot.
  { apply (bool_decide_unpack _). vm_compute. exact I. }
  apply Hnot, H.
  - lia.
  - vm_compute. reflexivity.
  - intros K HK. assert (K = 1%Z) as -> by lia. vm_compute. discriminate.
Qed.

(** C4, amended. A page whose fetch fails, by an exception of the
    request or by a status of the 4xx or 5xx class (those for which
    [raise_for_status] raises), is passed over: the loop goes on with
    the following pages and the records gathered so far; when no earlier
    page was empty, page N + 1 is requested.  With a failure on page 2
    only, one listing on pages 1 and 3 and a limit of 3, the run returns
    the two records of pages 1 and 3 (filtered) and requests all three
    pages. *)
Theorem fetch_error_skips_page :
  (forall page rest all_jobs tr,
      fetch_error (s (url page)) = true ->
      scrape_pages s search_query location (page :: rest) all_jobs tr =
      scrape_pages s search_query location rest all_jobs
        (tr ++ [HttpGet (url page) 10])) /\
  (forall unfamiliar_skills max_pages N,
      (1 <= N < max_pages)%Z ->
      fetch_error (s (url N)) = true ->
      (forall K, (1 <= K < N)%Z -> fragments_of (s (url K)) <> Some []) ->
      url (N + 1) ∈ requested
        (run (scrape_jobs s search_query location unfamiliar_skills max_pages)).2) /\
  (forall unfamiliar_skills e1 e3,
      fragments_of (s (url 1)) = Some [e1] ->
      fetch_error (s (url 2)) = true ->
      fragments_of (s (url 3)) = Some [e3] ->
      exists r1 r3,
        extract_job_info e1 = Some r1 /\ extract_job_info e3 = Some r3 /\
        run (scrape_jobs s search_query location unfamiliar_skills 3) =
        (Ok (filter_jobs_by_skills [r1; r3] (default [] unfamiliar_skills)),
         [HttpGet (url 1) 10; Sleep 2; HttpGet (url 2) 10;
          HttpGet (url 3) 10; Sleep 2])).
Proof.
  split; [| split].
  - intros page rest all_jobs tr Herr.
    by rewrite scrape_pages_cons, (fetch_error_no_fragments _ Herr).
  - intros unf max_pages N HN Herr Hbefore.
    rewrite run_scrape_jobs_trace, (py_range_split N max_pages) by lia.
    destruct (scrape_pages_passes (seqZ 1 (N - 1))
                (N :: seqZ (N + 1) (max_pages - N)) [] []) as (a & t & -> & _).
    { intros K HK%elem_of_seqZ. apply Hbefore. lia. }
    rewrite scrape_pages_cons, (fetch_error_no_fragments _ Herr).
    rewrite seqZ_cons by lia. apply scrape_pages_requests_first.
  - intros unf e1 e3 H1 H2 H3.
    destruct (fragment_extracts _ _ e1 H1) as [r1 Hr1]; [left |].
    destruct (fragment_extracts _ _ e3 H3) as [r3 Hr3]; [left |].
    exists r1, r3. split; [done |]. split; [done |].
    rewrite run_scrape_jobs.
    change (py_range 1 (3 + 1)) with [1; 2; 3]%Z.
    rewrite scrape_pages_cons, H1, scrape_pages_cons,
      (fetch_error_no_fragments _ H2), scrape_pages_cons, H3.
    rewrite !extract_page_omap. simpl. by rewrite Hr1, Hr3.
Qed.

End Pipeline.

(** ** The pipeline on any [str] *)

Section UnicodeFacts.

Lemma utf8_char_latin1 (c : ascii) :
  Unicode.utf8_char (code c) = Ok (Urllib.utf8_char c).
Proof. destruct c as [[] [] [] [] [] [] [] []]; reflexivity. Qed.

Lemma utf8_encode_latin1 (s : string) :
  Unicode.utf8_encode (Unicode.of_latin1 s) = Ok (Urllib.utf8_encode s).
Proof.
  induction s as [|c s IH]; [done |].
  cbn [Unicode.of_latin1 Unicode.utf8_encode Urllib.utf8_encode].
  by rewrite utf8_char_latin1, IH.
Qed.

Lemma quote_plus_latin1 (s : string) :
  Unicode.quote_plus (Unicode.of_latin1 s) = Ok (Urllib.quote_plus s).
Proof. unfold Unicode.quote_plus. by rewrite utf8_encode_latin1. Qed.

Lemma of_latin1_nil (s : string) :
  Unicode.of_latin1 s = [] <-> is_empty s = true.
Proof. by destruct s. Qed.

Lemma quote_params_latin1 (params : list (string * string)) :
  mapM (fun kv : string * Unicode.str =>
          value ← Unicode.quote_plus (snd kv); mret (fst kv +:+ "=" +:+ value))
       (map (fun kv => (fst kv, Unicode.of_latin1 (snd kv))) params) =
  Ok (map (fun kv => fst kv +:+ "=" +:+ Urllib.quote_plus (snd kv)) params).
Proof.
  induction params as [|[k v] params IH]; [done |].
  cbn [map mapM fst snd]. by rewrite quote_plus_latin1, IH.
Qed.

Lemma dict_set_latin1 (params : list (string * string)) (k v : string) :
  dict_set (map (fun kv => (fst kv, Unicode.of_latin1 (snd kv))) params)
    k (Unicode.of_latin1 v) =
  map (fun kv => (fst kv, Unicode.of_latin1 (snd kv))) (dict_set params k v).
Proof.
  induction params as [|[k' v'] params IH]; [done |].
  cbn [map dict_set fst snd]. destruct (String.eqb k' k); [done |].
  by rewrite IH.
Qed.

Lemma search_params_latin1 (q l : string) (page : Z) :
  Unicode.search_params (Unicode.of_latin1 q) (Unicode.of_latin1 l) page =
  map (fun kv => (fst kv, Unicode.of_latin1 (snd kv))) (search_params q l page).
Proof.
  unfold Unicode.search_params, search_params.
  destruct l as [|c l]; [done |].
  cbn [Unicode.of_latin1 is_empty].
  change (code c :: Unicode.of_latin1 l) with (Unicode.of_latin1 (String c l)).
  by rewrite <- dict_set_latin1.
Qed.

(** On strings of code points below 256 the builder on any [str] gives
    the URL of [build_search_url], and raises nothing. *)
Lemma build_search_url_latin1 (q l : string) (page : Z) :
  Unicode.build_search_url (Unicode.of_latin1 q) (Unicode.of_latin1 l) page =
  Ok (build_search_url q l page).
Proof.
  unfold Unicode.build_search_url, build_search_url.
  cbv zeta. by rewrite search_params_latin1, quote_params_latin1.
Qed.

Lemma scrape_pages_latin1 (s : session) (q l : string) (pages : list Z)
    (all_jobs : list job) (tr : list event) :
  Unicode.scrape_pages s (Unicode.of_latin1 q) (Unicode.of_latin1 l) pages all_jobs tr =
  scrape_pages s q l pages all_jobs tr.
Proof.
  revert all_jobs tr. induction pages as [|page rest IH]; intros all_jobs tr; [done |].
  cbn [Unicode.scrape_pages scrape_pages].
  rewrite build_search_url_latin1.
  unfold mbind at 1 2 3, M_bind at 1 2 3, lift.
  destruct (try_except _ _ _) as [[[jobs|jobs]|e] tr']; [done | apply IH | done].
Qed.

(** The pipeline on any [str] is [scrape_jobs] on the strings of code
    points below 256. *)
Lemma scrape_jobs_latin1 (s : session) (q l : string)
    (unfamiliar_skills : option (list string)) (max_pages : Z) :
  run (Unicode.scrape_jobs s (Unicode.of_latin1 q) (Unicode.of_latin1 l)
         unfamiliar_skills max_pages) =
  run (scrape_jobs s q l unfamiliar_skills max_pages).
Proof.
  unfold run, Unicode.scrape_jobs, scrape_jobs.
  unfold mbind, M_bind. by rewrite scrape_pages_latin1.
Qed.

Lemma utf8_char_cases (c : N) :
  if Unicode.is_surrogate c then Unicode.utf8_char c = Raise UnicodeEncodeError
  else exists b, Unicode.utf8_char c = Ok b.
Proof.
  unfold Unicode.utf8_char, Unicode.is_surrogate, between.
  destruct (N.ltb_spec c 128), (N.ltb_spec c 2048),
    (N.leb_spec 55296 c), (N.leb_spec c 57343), (N.ltb_spec c 65536);
    cbn [andb]; try lia; eauto.
Qed.

Lemma utf8_encode_cases (s : Unicode.str) :
  if encodable s then exists bs, Unicode.utf8_encode s = Ok bs
  else Unicode.utf8_encode s = Raise UnicodeEncodeError.
Proof.
  induction s as [|c s IH]; [by exists "" |].
  cbn [encodable forallb Unicode.utf8_encode].
  pose proof (utf8_char_cases c) as Hc.
  destruct (Unicode.is_surrogate c); cbn [negb andb].
  - by rewrite Hc.
  - destruct Hc as [b ->]. fold (encodable s).
    destruct (encodable s).
    + destruct IH as [bs ->]. by eexists.
    + by rewrite IH.
Qed.

Lemma quote_plus_cases (s : Unicode.str) :
  if encodable s then exists v, Unicode.quote_plus s = Ok v
  else Unicode.quote_plus s = Raise UnicodeEncodeError.
Proof.
  unfold Unicode.quote_plus. pose proof (utf8_encode_cases s) as H.
  destruct (encodable s).
  - destruct H as [bs ->]. by eexists.
  - by rewrite H.
Qed.

(** The builder raises exactly when the encoder refuses the query or
    the location, and then a [UnicodeEncodeError]. *)
Lemma build_search_url_cases (q l : Unicode.str) (page : Z) :
  if encodable q && encodable l
  then exists u, Unicode.build_search_url q l page = Ok u
  else Unicode.build_search_url q l page = Raise UnicodeEncodeError.
Proof.
  unfold Unicode.build_search_url, Unicode.search_params. cbv zeta.
  pose proof (quote_plus_cases q) as Hq. pose proof (quote_plus_cases l) as Hl.
  destruct l as [|c l].
  - cbn [encodable forallb mapM fst snd]. rewrite andb_true_r.
    rewrite !quote_plus_latin1.
    destruct (encodable q).
    + destruct Hq as [Q ->]. by eexists.
    + by rewrite Hq.
  - cbn [dict_set String.eqb Ascii.eqb Bool.eqb mapM fst snd].
    rewrite !quote_plus_latin1.
    destruct (encodable q).
    + destruct Hq as [Q ->]. cbn [andb].
      destruct (encodable (c :: l)).
      * destruct Hl as [L ->]. by eexists.
      * by rewrite Hl.
    + by rewrite Hq.
Qed.

Lemma scrape_pages_str_returns (s : session) (q l : Unicode.str) (pages : list Z)
    (all_jobs : list job) (tr : list event) :
  encodable q = true -> encodable l = true ->
  exists jobs tr',
    Unicode.scrape_pages s q l pages all_jobs tr = (Ok jobs, tr') /\
    (no_listing s q l -> jobs = all_jobs).
Proof.
  intros Hq Hl. revert all_jobs tr.
  induction pages as [|page rest IH]; intros all_jobs tr.
  - by exists all_jobs, tr.
  - cbn [Unicode.scrape_pages].
    pose proof (build_search_url_cases q l page) as Hu. rewrite Hq, Hl in Hu.
    destruct Hu as [u Hu]. rewrite Hu.
    unfold mbind at 1 2, M_bind at 1 2, lift.
    rewrite try_page_cases.
    destruct (fragments_of (s u)) as [[|e es]|] eqn:Hf.
    + exists all_jobs. by eexists.
    + destruct (IH (all_jobs ++ extract_page (e :: es) [])
                  ((tr ++ [HttpGet u 10]) ++ [Sleep 2])) as (jobs & tr' & -> & Hno).
      exists jobs, tr'. split; [done |].
      intros Hs. destruct (Hs page u Hu) as [H | H]; rewrite Hf in H; discriminate H.
    + apply IH.
Qed.

Lemma scrape_pages_str_raises (s : session) (q l : Unicode.str) (page : Z)
    (rest : list Z) (all_jobs : list job) (tr : list event) :
  encodable q && encodable l = false ->
  Unicode.scrape_pages s q l (page :: rest) all_jobs tr = (Raise UnicodeEncodeError, tr).
Proof.
  intros H. cbn [Unicode.scrape_pages].
  pose proof (build_search_url_cases q l page) as Hu. rewrite H in Hu.
  by rewrite Hu.
Qed.

(** C5 as it is stated does not hold for every input: with a lone
    surrogate in the query and a page limit of 1 the URL builder raises
    outside the [try] block. *)
Lemma scrape_jobs_raises_on_surrogate : ~ returns_for_every_input.
Proof.
  intros H.
  destruct (H site_down query_with_surrogate [] None 1%Z) as (l & tr & Hrun).
  vm_compute in Hrun. discriminate Hrun.
Qed.

(** C5, amended. When the query and the location hold no surrogate code
    point, [scrape_jobs] returns a list and raises nothing, whatever
    the site answers and whatever the unfamiliar skills and the page
    limit are, and that list is empty when no page yields a listing.
    With a page limit of zero or less it returns the empty list without
    a request, for every query and location.  With a page limit of one
    or more and a surrogate in the query or the location, it raises the
    [UnicodeEncodeError] of the URL builder to its caller, before any
    request. *)
Theorem scrape_jobs_never_raises_when_encodable
    (s : session) (search_query location : Unicode.str)
    (unfamiliar_skills : option (list string)) (max_pages : Z) :
  (encodable search_query = true -> encodable location = true ->
   exists l tr,
     run (Unicode.scrape_jobs s search_query location unfamiliar_skills max_pages) =
     (Ok l, tr) /\
     (no_listing s search_query location -> l = [])) /\
  ((max_pages <= 0)%Z ->
   run (Unicode.scrape_jobs s search_query location unfamiliar_skills max_pages) =
   (Ok [], [])) /\
  ((1 <= max_pages)%Z -> encodable search_query && encodable location = false ->
   run (Unicode.scrape_jobs s search_query location unfamiliar_skills max_pages) =
   (Raise UnicodeEncodeError, [])).
Proof.
  unfold run, Unicode.scrape_jobs. cbv zeta. unfold mbind, M_bind.
  split; [| split].
  - intros Hq Hl.
    destruct (scrape_pages_str_returns s search_query location
                (py_range 1 (max_pages + 1)) [] [] Hq Hl) as (jobs & tr & -> & Hno).
    eexists _, _. split; [reflexivity |].
    intros Hs. by rewrite (Hno Hs).
  - intros Hmax. unfold py_range. by rewrite seqZ_nil by lia.
  - intros Hmax Hbad. unfold py_range. rewrite seqZ_cons by lia.
    by rewrite scrape_pages_str_raises.
Qed.

End UnicodeFacts.

(** ** The statements at sample inputs *)

Lemma filter_jobs_by_skills_edge_cases_witness :
  job_without_skills ∈
    filter_jobs_by_skills [job_without_skills; job_with_skill] ["java"; "  "] /\
  job_with_skill ∉
    filter_jobs_by_skills [job_without_skills; job_with_skill] ["go"; "  "].
Proof.
  split.
  - apply (proj1 (filter_jobs_by_skills_edge_cases
                    [job_without_skills; job_with_skill] ["java"; "  "]
                    job_without_skills)).
    + left.
    + vm_compute. reflexivity.
  - apply (proj2 (filter_jobs_by_skills_edge_cases
                    [job_without_skills; job_with_skill] ["go"; "  "]
                    job_with_skill) "  ").
    + right. left.
    + vm_compute. reflexivity.
    + vm_compute. discriminate.
Defined.

Lemma details_need_three_items_witness :
  let r := job_record "Acme" NA ["Go"; "SQL"; "Go"] NA "3 LPA" "Pune" NA NA "/job/42" in
  let r0 := job_record NA NA [] NA NA NA NA NA NA in
  let r1 := job_record NA NA [] "East" "2 yrs" "PuneEast" NA NA NA in
  (extract_job_info (sample_listing "Acme") = Some r /\
   r !! "location" = Some (VStr "Pune") /\
   r !! "experience" = Some (VStr NA) /\
   r !! "salary" = Some (VStr "3 LPA")) /\
  (extract_job_info bare_listing = Some r0 /\
   r0 !! "experience" = Some (VStr NA) /\
   r0 !! "salary" = Some (VStr NA) /\
   r0 !! "location" = Some (VStr NA)) /\
  (extract_job_info fragment_with_nested_item = Some r1 /\
   r1 !! "location" = Some (VStr "PuneEast") /\
   r1 !! "experience" = Some (VStr "East") /\
   r1 !! "salary" = Some (VStr "2 yrs")).
Proof.
  intros r r0 r1.
  assert (extract_job_info (sample_listing "Acme") = Some r) as H
    by (vm_compute; reflexivity).
  assert (extract_job_info bare_listing = Some r0) as H0
    by (vm_compute; reflexivity).
  assert (extract_job_info fragment_with_nested_item = Some r1) as H1
    by (vm_compute; reflexivity).
  split; [| split]; (split; [assumption |]).
  - exact (proj1 (proj2 (details_need_three_items (sample_listing "Acme") r H))
             (element "li" [] [NavigableString "Pune"])
             (element "li" [] [NavigableString "  "])
             (element "li" [] [NavigableString " 3 LPA"])
             [] eq_refl).
  - apply (proj1 (details_need_three_items bare_listing r0 H0)).
    vm_compute. lia.
  - exact (proj1 (proj2 (details_need_three_items fragment_with_nested_item r1 H1))
             (Tag "li" [] ∅
                [ NavigableString "Pune";
                  Tag "ul" [] ∅ [ Tag "li" [] ∅ [NavigableString "East"] ] ])
             (Tag "li" [] ∅ [NavigableString "East"])
             (Tag "li" [] ∅ [NavigableString "2 yrs"])
             [] eq_refl).
Defined.

Lemma skills_from_spans_witness :
  let r := job_record "Acme" NA ["Go"; "SQL"; "Go"] NA "3 LPA" "Pune" NA NA "/job/42" in
  let r0 := job_record NA NA [] NA NA NA NA NA NA in
  (extract_job_info (sample_listing "Acme") = Some r /\
   r !! "skills" = Some (VList ["Go"; "SQL"; "Go"])) /\
  (extract_job_info bare_listing = Some r0 /\
   r0 !! "skills" = Some (VList [])).
Proof.
  intros r r0.
  assert (extract_job_info (sample_listing "Acme") = Some r) as H
    by (vm_compute; reflexivity).
  assert (extract_job_info bare_listing = Some r0) as H0
    by (vm_compute; reflexivity).
  split; (split; [assumption |]).
  - exact (proj2 (proj2 (skills_from_spans (sample_listing "Acme") r H))
             (element "div" ["more-skills-sections"]
                [text_span "Go"; text_span "SQL"; text_span "Go"])
             ["Go"; "SQL"; "Go"] eq_refl eq_refl).
  - apply (proj1 (proj2 (skills_from_spans bare_listing r0 H0))).
    vm_compute. reflexivity.
Defined.

Lemma empty_page_stops_pagination_witness :
  (build_search_url "python" "" 4 ∉
     requested (run (scrape_jobs site_two_then_none "python" "" None 5)).2) /\
  exists r1 r2,
    extract_job_info (sample_listing "Acme") = Some r1 /\
    extract_job_info (sample_listing "Bolt") = Some r2 /\
    run (scrape_jobs site_two_then_none "python" "" None 5) =
    (Ok (filter_jobs_by_skills [r1; r2] []),
     [HttpGet (build_search_url "python" "" 1) 10; Sleep 2;
      HttpGet (build_search_url "python" "" 2) 10]).
Proof.
  split.
  - apply (proj1 (empty_page_stops_pagination site_two_then_none "python" "")
             None 5%Z 2%Z).
    + lia.
    + vm_compute. reflexivity.
    + lia.
  - apply (proj2 (empty_page_stops_pagination site_two_then_none "python" "")
             None (sample_listing "Acme") (sample_listing "Bolt")).
    + vm_compute. reflexivity.
    + vm_compute. reflexivity.
Defined.

Lemma fetch_error_skips_page_witness :
  scrape_pages site_page2_unavailable "python" "" [2; 3]%Z [] [] =
    scrape_pages site_page2_unavailable "python" "" [3]%Z []
      [HttpGet (build_search_url "python" "" 2) 10] /\
  (build_search_url "python" "" 3 ∈
     requested (run (scrape_jobs site_page2_down "python" "" None 3)).2) /\
  exists r1 r3,
    extract_job_info (sample_listing "Core") = Some r1 /\
    extract_job_info (sample_listing "Core") = Some r3 /\
    run (scrape_jobs site_page2_down "python" "" None 3) =
    (Ok (filter_jobs_by_skills [r1; r3] []),
     [HttpGet (build_search_url "python" "" 1) 10; Sleep 2;
      HttpGet (build_search_url "python" "" 2) 10;
      HttpGet (build_search_url "python" "" 3) 10; Sleep 2]).
Proof.
  split; [| split].
  - apply (proj1 (fetch_error_skips_page site_page2_unavailable "python" "")
             2%Z [3%Z] [] []).
    vm_compute. reflexivity.
  - apply (proj1 (proj2 (fetch_error_skips_page site_page2_down "python" ""))
             None 3%Z 2%Z).
    + lia.
    + vm_compute. reflexivity.
    + intros K HK. assert (K = 1%Z) as -> by lia. vm_compute. discriminate.
  - apply (proj2 (proj2 (fetch_error_skips_page site_page2_down "python" ""))
             None (sample_listing "Core") (sample_listing "Core")).
    + vm_compute. reflexivity.
    + vm_compute. reflexivity.
    + vm_compute. reflexivity.
Defined.

Lemma scrape_jobs_never_raises_when_encodable_witness :
  (exists l tr,
     run (Unicode.scrape_jobs site_down (Unicode.of_latin1 "caf" ++ [233; 8364; 128188]%N)
            (Unicode.of_latin1 "Pune") (Some ["java"]) 3) = (Ok l, tr) /\
     (no_listing site_down (Unicode.of_latin1 "caf" ++ [233; 8364; 128188]%N)
        (Unicode.of_latin1 "Pune") -> l = [])) /\
  run (Unicode.scrape_jobs site_down query_with_surrogate [] None 0) = (Ok [], []) /\
  run (Unicode.scrape_jobs site_always query_with_surrogate [] None 3) =
    (Raise UnicodeEncodeError, []).
Proof.
  split; [| split].
  - apply (proj1 (scrape_jobs_never_raises_when_encodable site_down
                    (Unicode.of_latin1 "caf" ++ [233; 8364; 128188]%N)
                    (Unicode.of_latin1 "Pune") (Some ["java"]) 3%Z)).
    + vm_compute. reflexivity.
    + vm_compute. reflexivity.
  - apply (proj1 (proj2 (scrape_jobs_never_raises_when_encodable site_down
                    query_with_surrogate [] None 0%Z))).
    lia.
  - apply (proj2 (proj2 (scrape_jobs_never_raises_when_encodable site_always
                    query_with_surrogate [] None 3%Z))).
    + lia.
    + vm_compute. reflexivity.
Defined.

(** * More properties *)

Section MoreStringFacts.

Lemma lower_char_idem (c : ascii) : lower_char (lower_char c) = lower_char c.
Proof. destruct c as [[] [] [] [] [] [] [] []]; reflexivity. Qed.

Lemma lower_idem (s : string) : lower (lower s) = lower s.
Proof. induction s as [|c s IH]; simpl; [done | by rewrite lower_char_idem, IH]. Qed.

Lemma lstrip_idem (s : string) : lstrip (lstrip s) = lstrip s.
Proof.
  induction s as [|c s IH]; simpl; [done |].
  destruct (is_space c) eqn:E; [done |]. simpl. by rewrite E.
Qed.

Lemma rstrip_idem (s : string) : rstrip (rstrip s) = rstrip s.
Proof.
  induction s as [|c s IH]; simpl; [done |].
  destruct (is_space c && is_empty (rstrip s)) eqn:E; [done |].
  simpl. by rewrite IH, E.
Qed.

Lemma lstrip_rstrip (s : string) : lstrip (rstrip s) = rstrip (lstrip s).
Proof.
  induction s as [|c s IH]; simpl; [done |].
  destruct (is_space c) eqn:E; simpl.
  - destruct (is_empty (rstrip s)) eqn:Er; simpl.
    + rewrite <- IH. by destruct (rstrip s).
    + by rewrite E.
  - by rewrite E.
Qed.

Lemma strip_idem (s : string) : strip (strip s) = strip s.
Proof.
  unfold strip. by rewrite lstrip_rstrip, lstrip_idem, rstrip_idem.
Qed.

Lemma strip_NA : strip NA = NA.
Proof. reflexivity. Qed.

End MoreStringFacts.

Section MoreFilterFacts.

Lemma has_unfamiliar_app (u1 u2 : list string) (j : job) :
  has_unfamiliar (u1 ++ u2) j = has_unfamiliar u1 j || has_unfamiliar u2 j.
Proof. unfold has_unfamiliar. by rewrite map_app, existsb_app. Qed.

Lemma filter_filter_andb {A} (f g : A -> bool) (l : list A) :
  List.filter g (List.filter f l) = List.filter (fun x => f x && g x) l.
Proof.
  induction l as [|x l IH]; simpl; [done |].
  destruct (f x); simpl; [| done]. destruct (g x); by rewrite IH.
Qed.

(** X1. Filtering by two unfamiliar lists put end to end is filtering by
    the first and then by the second, and the two filters can be applied
    in either order. *)
Theorem filter_jobs_by_skills_compose (jobs : list job) (u1 u2 : list string) :
  filter_jobs_by_skills jobs (u1 ++ u2) =
    filter_jobs_by_skills (filter_jobs_by_skills jobs u1) u2 /\
  filter_jobs_by_skills (filter_jobs_by_skills jobs u1) u2 =
    filter_jobs_by_skills (filter_jobs_by_skills jobs u2) u1.
Proof.
  rewrite !filter_jobs_by_skills_filter, !filter_filter_andb. split.
  - apply filter_ext. intros j. by rewrite has_unfamiliar_app, negb_orb.
  - apply filter_ext. intros j. apply andb_comm.
Qed.

Lemma has_unfamiliar_normalised (unf : list string) (j : job) :
  has_unfamiliar (map (fun u => strip (lower u)) unf) j = has_unfamiliar unf j /\
  has_unfamiliar (map lower unf) j = has_unfamiliar unf j /\
  has_unfamiliar (map strip unf) j = has_unfamiliar unf j.
Proof.
  unfold has_unfamiliar. rewrite !map_map. repeat split; f_equal; apply map_ext; intros u.
  - by rewrite (strip_lower u), lower_idem, strip_lower, strip_idem.
  - by rewrite lower_idem.
  - by rewrite (strip_lower (strip u)), strip_idem, <- strip_lower.
Qed.

(** X2. Lower-casing the unfamiliar entries, or trimming them, before
    the call changes nothing in what the filter returns. *)
Theorem filter_jobs_by_skills_normalised (jobs : list job) (unfamiliar_skills : list string) :
  filter_jobs_by_skills jobs (map lower unfamiliar_skills) =
    filter_jobs_by_skills jobs unfamiliar_skills /\
  filter_jobs_by_skills jobs (map strip unfamiliar_skills) =
    filter_jobs_by_skills jobs unfamiliar_skills.
Proof.
  rewrite !filter_jobs_by_skills_filter. split; apply filter_ext; intros j; f_equal;
    apply has_unfamiliar_normalised.
Qed.

Lemma requires_unfamiliar_same_entries (u1 u2 : list string) (j : job) :
  (forall u, u ∈ u1 <-> u ∈ u2) ->
  has_unfamiliar u1 j = has_unfamiliar u2 j.
Proof.
  intros Hsame.
  destruct (has_unfamiliar u1 j) eqn:E1, (has_unfamiliar u2 j) eqn:E2; try done.
  - apply has_unfamiliar_spec in E1 as (u & t & Hu & Ht & Hs).
    assert (has_unfamiliar u2 j = true) as H; [| congruence].
    apply has_unfamiliar_spec. exists u, t. by rewrite <- Hsame.
  - apply has_unfamiliar_spec in E2 as (u & t & Hu & Ht & Hs).
    assert (has_unfamiliar u1 j = true) as H; [| congruence].
    apply has_unfamiliar_spec. exists u, t. by rewrite Hsame.
Qed.

(** X3. Two unfamiliar lists with the same entries, in whatever order
    and number, give the same output. *)
Theorem filter_jobs_by_skills_same_entries (jobs : list job) (u1 u2 : list string) :
  (forall u, u ∈ u1 <-> u ∈ u2) ->
  filter_jobs_by_skills jobs u1 = filter_jobs_by_skills jobs u2.
Proof.
  intros Hsame. rewrite !filter_jobs_by_skills_filter.
  apply filter_ext. intros j. f_equal. by apply requires_unfamiliar_same_entries.
Qed.

(** X4. The filter treats each record on its own: the output for two
    lists of records put end to end is the two outputs put end to end,
    and the output is a sublist of the input. *)
Theorem filter_jobs_by_skills_app (jobs1 jobs2 : list job) (unfamiliar_skills : list string) :
  filter_jobs_by_skills (jobs1 ++ jobs2) unfamiliar_skills =
    filter_jobs_by_skills jobs1 unfamiliar_skills ++
    filter_jobs_by_skills jobs2 unfamiliar_skills /\
  filter_jobs_by_skills jobs1 unfamiliar_skills `sublist_of` jobs1.
Proof.
  rewrite !filter_jobs_by_skills_filter. split; [apply List.filter_app |].
  induction jobs1 as [|j jobs IH]; simpl; [done |].
  destruct (negb _); by constructor.
Qed.

End MoreFilterFacts.

Section MoreUrlFacts.

Lemma count_char_app (c : ascii) (a b : string) :
  count_char c (a +:+ b) = count_char c a + count_char c b.
Proof. induction a as [|x a IH]; simpl; [done | rewrite IH; lia]. Qed.

Lemma count_char_absent (P : ascii -> bool) (c : ascii) (s : string) :
  P c = false -> all_chars P s = true -> count_char c s = 0.
Proof.
  intros Hc. induction s as [|x s IH]; simpl; [done |].
  rewrite andb_true_iff. intros [Hx Hs]. rewrite (IH Hs).
  destruct (Ascii.eqb x c) eqn:E; [| done].
  apply Ascii.eqb_eq in E as ->. congruence.
Qed.

Lemma quote_byte_alphabet (b : ascii) : all_chars is_quoted_char (quote_byte b) = true.
Proof. destruct b as [[] [] [] [] [] [] [] []]; reflexivity. Qed.

Lemma quote_plus_alphabet (s : string) : all_chars is_quoted_char (quote_plus s) = true.
Proof.
  unfold quote_plus. induction (utf8_encode s) as [|b bs IH]; simpl; [done |].
  by rewrite all_chars_app, quote_byte_alphabet, IH.
Qed.

Lemma str_of_int_alphabet (n : Z) : all_chars is_quoted_char (str_of_int n) = true.
Proof.
  eapply all_chars_impl, str_of_int_chars.
  intros c. destruct c as [[] [] [] [] [] [] [] []]; try discriminate; done.
Qed.

Lemma count_char_url_shape (c : ascii) (Q P T : string) (b : bool) :
  is_quoted_char c = false ->
  all_chars is_quoted_char Q = true -> all_chars is_quoted_char P = true ->
  all_chars is_quoted_char T = true ->
  count_char c (url_shape Q P (if b then "" else "&txtLocation=" +:+ T)) =
  count_char c (url_shape "" "" (if b then "" else "&txtLocation=")).
Proof.
  intros Hc HQ HP HT. unfold url_shape, base_url.
  rewrite !count_char_app.
  rewrite !(count_char_absent _ c Q Hc HQ), !(count_char_absent _ c P Hc HP).
  destruct b; rewrite ?count_char_app, ?(count_char_absent _ c T Hc HT); simpl; lia.
Qed.

(** X5. Whatever the query and the location contain, the URL has one
    [?], no space and no [#], ten [&] and eleven [=], and one more of
    each of these two when the location is not empty: a value cannot add
    or cut a parameter. *)
Theorem build_search_url_separators (search_query location : string) (page : Z) :
  let u := build_search_url search_query location page in
  let extra := if is_empty location then 0 else 1 in
  count_char "?" u = 1 /\
  count_char "&" u = 10 + extra /\
  count_char "=" u = 11 + extra /\
  count_char " " u = 0 /\
  count_char "#" u = 0.
Proof.
  cbv zeta. rewrite build_search_url_shape, location_param_cases.
  rewrite !count_char_url_shape
    by auto using quote_plus_alphabet, str_of_int_alphabet.
  by destruct (is_empty location).
Qed.

(** X6. With the same query and location, two page numbers give the same
    URL only when they are equal. *)
Theorem build_search_url_page_inj (search_query location : string) (p1 p2 : Z) :
  build_search_url search_query location p1 = build_search_url search_query location p2
  <-> p1 = p2.
Proof. split; [apply build_search_url_inj | by intros ->]. Qed.

End MoreUrlFacts.

Section MorePipeline.
Variable s : session.
Variables search_query location : string.
Abbreviation url := (build_search_url search_query location).

Lemma scrape_pages_flat (pages : list Z) (all_jobs : list job) (tr : list event) :
  scrape_pages s search_query location pages all_jobs tr =
  (Ok (all_jobs ++
       flat_map (page_records s search_query location)
         (attempted s search_query location pages)),
   tr ++ flat_map (page_events s search_query location)
           (attempted s search_query location pages)).
Proof.
  revert all_jobs tr. induction pages as [|page rest IH]; intros all_jobs tr.
  - simpl. by rewrite !app_nil_r.
  - rewrite scrape_pages_cons. cbn [attempted].
    pose proof (eq_refl (page_records s search_query location page)) as HR.
    pose proof (eq_refl (page_events s search_query location page)) as HE.
    unfold page_records at 2 in HR. unfold page_events at 2 in HE.
    destruct (fragments_of (s (url page))) as [[|e es]|] eqn:E;
      cbn [flat_map]; rewrite HR, HE, ?IH, ?extract_page_omap; cbn [omap list_omap app];
      rewrite ?app_nil_r, <- ?app_assoc; reflexivity.
Qed.

(** X7. The run as a function of what the site answers. The pages gone
    through are 1, 2, ... up to the limit or to the first page answered
    without a listing; the trace is one request for each of them, with a
    pause of 2 after each page that holds a listing; the result is the
    filter applied to the records of these pages in order, a page that
    fails giving none. *)
Theorem scrape_jobs_by_pages (unfamiliar_skills : option (list string)) (max_pages : Z) :
  let pages := attempted s search_query location (py_range 1 (max_pages + 1)) in
  run (scrape_jobs s search_query location unfamiliar_skills max_pages) =
  (Ok (filter_jobs_by_skills
         (flat_map (page_records s search_query location) pages)
         (default [] unfamiliar_skills)),
   flat_map (page_events s search_query location) pages).
Proof. cbv zeta. by rewrite run_scrape_jobs, scrape_pages_flat. Qed.

(** X8. With a page limit of zero or less nothing is requested and the
    result is the empty list. *)
Theorem scrape_jobs_no_page (unfamiliar_skills : option (list string)) (max_pages : Z) :
  (max_pages <= 0)%Z ->
  run (scrape_jobs s search_query location unfamiliar_skills max_pages) = (Ok [], []).
Proof.
  intros H. rewrite run_scrape_jobs. unfold py_range.
  rewrite seqZ_nil by lia. reflexivity.
Qed.

Lemma attempted_prefix (pages : list Z) :
  attempted s search_query location pages `prefix_of` pages.
Proof.
  induction pages as [|page rest IH]; [done |]. cbn [attempted].
  destruct (fragments_of _) as [[|e es]|].
  - apply prefix_cons, prefix_nil.
  - by apply prefix_cons.
  - by apply prefix_cons.
Qed.

Lemma prefix_seqZ (m n : Z) (l : list Z) :
  l `prefix_of` seqZ m n -> l = seqZ m (Z.of_nat (length l)) /\ (Z.of_nat (length l) <= Z.max 0 n)%Z.
Proof.
  intros [k Hk].
  assert (length (seqZ m n) = length l + length k) as Hlen
    by (by rewrite Hk, length_app).
  rewrite length_seqZ in Hlen.
  split; [| lia].
  apply list_eq. intros i.
  destruct (decide (i < length l)) as [Hi | Hi].
  - rewrite lookup_seqZ_lt by lia.
    assert (seqZ m n !! i = Some (m + Z.of_nat i)%Z) as H by (apply lookup_seqZ_lt; lia).
    rewrite Hk, lookup_app_l in H by done. done.
  - rewrite lookup_seqZ_ge by lia. apply lookup_ge_None. lia.
Qed.

Lemma requested_page_events (pages : list Z) :
  requested (flat_map (page_events s search_query location) pages) = map url pages.
Proof.
  induction pages as [|page rest IH]; [done |].
  cbn [flat_map map]. rewrite requested_app, IH. unfold page_events.
  by destruct (fragments_of _) as [[|e es]|].
Qed.

Lemma NoDup_map_url (pages : list Z) : NoDup pages -> NoDup (map url pages).
Proof.
  intros H. apply NoDup_fmap_2; [| done].
  intros p1 p2. apply build_search_url_inj.
Qed.

(** X9. The requests of a run are those of pages 1 to k in this order,
    for some k that is at most the page limit, and no URL is requested
    twice. *)
Theorem scrape_jobs_requests (unfamiliar_skills : option (list string)) (max_pages : Z) :
  let tr := (run (scrape_jobs s search_query location unfamiliar_skills max_pages)).2 in
  exists k : nat,
    (Z.of_nat k <= Z.max 0 max_pages)%Z /\
    requested tr = map url (seqZ 1 (Z.of_nat k)) /\
    NoDup (requested tr).
Proof.
  cbv zeta. rewrite run_scrape_jobs_trace, scrape_pages_flat. cbn [snd app].
  rewrite requested_page_events.
  pose proof (attempted_prefix (py_range 1 (max_pages + 1))) as Hp.
  unfold py_range in *. apply prefix_seqZ in Hp as [Heq Hle].
  exists (length (attempted s search_query location (seqZ 1 (max_pages + 1 - 1)))).
  split; [lia |]. split; [by rewrite <- Heq |].
  apply NoDup_map_url. rewrite Heq. apply NoDup_seqZ.
Qed.

Lemma extract_job_info_complete (e : node) (r : job) :
  extract_job_info e = Some r -> complete r.
Proof.
  destruct e as [t | nm cl at_ cs]; [done |].
  rewrite extract_job_info_Tag. intros [= <-]. apply job_record_complete.
Qed.

Lemma page_records_complete (page : Z) (r : job) :
  r ∈ page_records s search_query location page -> complete r.
Proof.
  unfold page_records. destruct (fragments_of _) as [l|]; [| by intros ?%elem_of_nil].
  intros (e & _ & He)%list_elem_of_omap. by eapply extract_job_info_complete.
Qed.

(** X10. Every record [scrape_jobs] returns is complete, and none needs
    a skill of the unfamiliar list. *)
Theorem scrape_jobs_records (unfamiliar_skills : option (list string)) (max_pages : Z)
    (jobs : list job) (r : job) :
  (run (scrape_jobs s search_query location unfamiliar_skills max_pages)).1 = Ok jobs ->
  r ∈ jobs ->
  complete r /\ ~ requires_unfamiliar (default [] unfamiliar_skills) r.
Proof.
  rewrite run_scrape_jobs, scrape_pages_flat. cbn [fst app]. intros [= <-].
  intros [Hin Hkeep]%elem_of_filter_jobs. split.
  - apply list_elem_of_In, in_flat_map in Hin as (page & _ & Hr).
    apply (page_records_complete page). by apply list_elem_of_In.
  - rewrite <- has_unfamiliar_spec. congruence.
Qed.

(** X11. The listings found on a page give one record each, in their
    order, each of them complete: none is dropped. *)
Theorem page_gives_one_record_per_listing (o : option response) (job_elements : list node) :
  fragments_of o = Some job_elements ->
  Forall2 (fun e r => extract_job_info e = Some r /\ complete r)
    job_elements (extract_page job_elements []).
Proof.
  intros Ho. rewrite extract_page_omap. cbn [app].
  assert (Forall (fun e => exists r, extract_job_info e = Some r) job_elements) as Hall.
  { apply Forall_forall. intros e He. by eapply fragment_extracts. }
  clear Ho. induction Hall as [|e l [r Hr] _ IH]; [constructor |].
  cbn [omap list_omap]. rewrite Hr. constructor; [| exact IH].
  split; [done | by eapply extract_job_info_complete].
Qed.

(** X12. When every page up to the limit holds a listing, every page is
    requested and each request is followed by a pause of 2, the last one
    too. *)
Theorem scrape_jobs_all_pages (unfamiliar_skills : option (list string)) (max_pages : Z) :
  (forall page, (1 <= page <= max_pages)%Z ->
     exists e es, fragments_of (s (url page)) = Some (e :: es)) ->
  (run (scrape_jobs s search_query location unfamiliar_skills max_pages)).2 =
  flat_map (fun page => [HttpGet (url page) 10; Sleep 2]) (seqZ 1 max_pages).
Proof.
  intros Hall. rewrite run_scrape_jobs_trace, scrape_pages_flat. cbn [snd app].
  unfold py_range. replace (max_pages + 1 - 1)%Z with max_pages by lia.
  assert (forall page, page ∈ seqZ 1 max_pages ->
            exists e es, fragments_of (s (url page)) = Some (e :: es)) as Hin.
  { intros page Hp%elem_of_seqZ. apply Hall. lia. }
  clear Hall. induction (seqZ 1 max_pages) as [|page rest IH]; [done |].
  destruct (Hin page ltac:(left)) as (e & es & He).
  cbn [attempted flat_map]. rewrite He. cbn [flat_map].
  unfold page_events at 1. rewrite He. simpl. do 2 f_equal.
  apply IH. intros p Hp. apply Hin. by right.
Qed.

End MorePipeline.

Section MoreExtractFacts.

Lemma text_or_NA_trimmed (o : option node) : strip (text_or_NA o) = text_or_NA o.
Proof. destruct o; [apply strip_idem | done]. Qed.

Lemma stripped_or_NA_trimmed (li : node) : strip (stripped_or_NA li) = stripped_or_NA li.
Proof. unfold stripped_or_NA. destruct (is_empty _); [done | apply strip_idem]. Qed.

Lemma details_in_trimmed (je : node) :
  strip (details_in je).1.1 = (details_in je).1.1 /\
  strip (details_in je).1.2 = (details_in je).1.2 /\
  strip (details_in je).2 = (details_in je).2.
Proof.
  unfold details_in.
  destruct (detail_items je) as [|li0 [|li1 [|li2 more]]]; try done.
  cbn [fst snd]. auto using stripped_or_NA_trimmed.
Qed.

Lemma posted_in_trimmed (je : node) : strip (posted_in je) = posted_in je.
Proof. unfold posted_in. destruct (first_tag je _ _); [apply text_or_NA_trimmed | done]. Qed.

Lemma skills_in_trimmed (je : node) (t : string) : t ∈ skills_in je -> strip t = t.
Proof.
  unfold skills_in. destruct (first_tag je _ _); [| by intros ?%elem_of_nil].
  intros (sp & -> & _)%list_elem_of_fmap. apply strip_idem.
Qed.

(** X13. In an extracted record the company, the title, the three
    details, the description and the posted date have no white space at
    either end, and neither has any skill token. *)
Theorem extracted_texts_are_trimmed (job_element : node) (r : job) :
  extract_job_info job_element = Some r ->
  (forall k, k ∈ trimmed_fields -> exists v, r !! k = Some (VStr v) /\ strip v = v) /\
  (forall t, t ∈ get_skills r -> strip t = t).
Proof.
  destruct job_element as [t | nm cl at_ cs]; [done |].
  rewrite extract_job_info_Tag. intros [= <-].
  match goal with |- context [job_record ?a ?b ?c ?d ?e ?f ?g ?h ?i] =>
    destruct (job_record_lookups a b c d e f g h i)
      as (H1 & H2 & H3 & H4 & H5 & H6 & H7 & H8 & H9) end.
  destruct (details_in_trimmed (Tag nm cl at_ cs)) as (Hlo & Hex & Hsa).
  split.
  - intros k Hk. unfold trimmed_fields in Hk.
    repeat (apply elem_of_cons in Hk as [-> | Hk];
            [eexists; split; [eassumption |];
             auto using text_or_NA_trimmed, posted_in_trimmed |]).
    by apply elem_of_nil in Hk.
  - intros t0. unfold get_skills. rewrite H3. apply skills_in_trimmed.
Qed.

(** X14. When its element is found a field holds the trimmed text of the
    element, the empty string for a blank one (the sentinel is for
    missing elements only); the posted date is read in the first [span]
    inside the posted node; the link is the [href] of the first
    hyperlink as it is written, and the sentinel when that [href] is
    empty. *)
Theorem extracted_fields_when_found (job_element : node) (r : job) :
  extract_job_info job_element = Some r ->
  (forall e, first_tag job_element "h3" (Some "joblist-comp-name") = Some e ->
     r !! "company" = Some (VStr (strip (text e)))) /\
  (forall e, first_tag job_element "h2" (Some "heading-trun") = Some e ->
     r !! "job_title" = Some (VStr (strip (text e)))) /\
  (forall e, first_tag job_element "li" (Some "job-description__") = Some e ->
     r !! "job_description" = Some (VStr (strip (text e)))) /\
  (forall posted sp, first_tag job_element "span" (Some "sim-posted") = Some posted ->
     first_tag posted "span" None = Some sp ->
     r !! "posted_date" = Some (VStr (strip (text sp)))) /\
  (forall link h, first_tag job_element "a" None = Some link ->
     attrs_of link !! "href" = Some h ->
     r !! "more_info" = Some (VStr (if is_empty h then NA else h))).
Proof.
  destruct job_element as [t | nm cl at_ cs]; [done |].
  rewrite extract_job_info_Tag. intros [= <-].
  match goal with |- context [job_record ?a ?b ?c ?d ?e ?f ?g ?h ?i] =>
    destruct (job_record_lookups a b c d e f g h i)
      as (H1 & H2 & H3 & H4 & H5 & H6 & H7 & H8 & H9) end.
  rewrite H1, H2, H7, H8, H9. unfold posted_in, link_in.
  repeat apply conj.
  - by intros e ->.
  - by intros e ->.
  - by intros e ->.
  - by intros posted sp -> ->.
  - by intros link h -> ->.
Qed.

(** X15. Only what is inside the fragment counts: the name, the classes
    and the attributes of the fragment itself have no part in the
    record. *)
Theorem extract_job_info_contents_only
    (nm nm' : string) (cl cl' : list string) (at_ at_' : gmap string string)
    (cs : list node) :
  extract_job_info (Tag nm cl at_ cs) = extract_job_info (Tag nm' cl' at_' cs).
Proof. by rewrite !extract_job_info_Tag. Qed.

End MoreExtractFacts.

Section ParseFacts.

Lemma split_nonempty (s : string) (sep : ascii) : str_split s sep <> [].
Proof.
  induction s as [|c s IH]; simpl; [done |].
  destruct (Ascii.eqb c sep); [done |]. by destruct (str_split s sep).
Qed.

Lemma split_cons_other (c sep : ascii) (s : string) :
  Ascii.eqb c sep = false ->
  exists first others, str_split s sep = first :: others /\
    str_split (String c s) sep = String c first :: others.
Proof.
  intros E. pose proof (split_nonempty s sep) as Hne. simpl. rewrite E.
  destruct (str_split s sep) as [|first others]; [done |]. eauto.
Qed.

Lemma split_tokens_free (s : string) (sep : ascii) (t : string) :
  t ∈ str_split s sep -> count_char sep t = 0.
Proof.
  revert t. induction s as [|c s IH]; intros t; simpl.
  - by intros ->%list_elem_of_singleton.
  - destruct (Ascii.eqb c sep) eqn:E.
    + intros [-> | Ht]%elem_of_cons; [done | by apply IH].
    + pose proof (split_nonempty s sep) as Hne.
      destruct (str_split s sep) as [|first others]; [done |].
      intros [-> | Ht]%elem_of_cons.
      * simpl. rewrite E. apply IH. by left.
      * apply IH. by right.
Qed.

Lemma count_char_lstrip (c : ascii) (s : string) :
  count_char c (lstrip s) <= count_char c s.
Proof.
  induction s as [|x s IH]; simpl; [done |].
  destruct (is_space x); simpl; lia.
Qed.

Lemma count_char_rstrip (c : ascii) (s : string) :
  count_char c (rstrip s) <= count_char c s.
Proof.
  induction s as [|x s IH]; simpl; [done |].
  destruct (is_space x && is_empty (rstrip s)); simpl; lia.
Qed.

Lemma count_char_strip (c : ascii) (s : string) :
  count_char c (strip s) <= count_char c s.
Proof.
  unfold strip. pose proof (count_char_rstrip c (lstrip s)).
  pose proof (count_char_lstrip c s). lia.
Qed.

Lemma lower_nonempty (s : string) : s <> "" -> lower s <> "".
Proof. by destruct s. Qed.

Lemma is_empty_false (s : string) : is_empty s = false <-> s <> "".
Proof. by destruct s. Qed.

Lemma elem_of_parse_unfamiliar (input e : string) :
  e ∈ parse_unfamiliar input ->
  exists t, t ∈ str_split input "," /\ e = strip t /\ strip t <> "".
Proof.
  unfold parse_unfamiliar. intros (t & -> & Ht)%list_elem_of_fmap.
  apply list_elem_of_In, filter_In in Ht as [Ht Hne].
  exists t. split; [by apply list_elem_of_In |]. split; [done |].
  by apply is_empty_false, negb_true_iff.
Qed.

(** X16. Every entry read from the line of skills to avoid is not empty,
    is trimmed and has no comma, and is still not empty once lower-cased
    and trimmed: the line never yields an entry that matches every
    record. *)
Theorem parse_unfamiliar_entries (unfamiliar_input e : string) :
  e ∈ parse_unfamiliar unfamiliar_input ->
  clean_skill e /\ strip (lower e) <> "".
Proof.
  intros (t & Ht & -> & Hne)%elem_of_parse_unfamiliar.
  assert (clean_skill (strip t)) as Hclean.
  { split; [done |]. split; [apply strip_idem |].
    pose proof (count_char_strip "," t). rewrite (split_tokens_free _ _ _ Ht) in *. lia. }
  split; [done |].
  rewrite strip_lower, strip_idem. by apply lower_nonempty.
Qed.

Lemma split_free (t : string) (sep : ascii) :
  count_char sep t = 0 -> str_split t sep = [t].
Proof.
  induction t as [|c t IH]; simpl; [done |].
  destruct (Ascii.eqb c sep) eqn:E; [done |]. intros H. by rewrite IH.
Qed.

Lemma split_app_sep (t rest : string) (sep : ascii) :
  count_char sep t = 0 ->
  str_split (t +:+ String sep rest) sep = t :: str_split rest sep.
Proof.
  induction t as [|c t IH]; simpl.
  - intros _. by rewrite Ascii.eqb_refl.
  - destruct (Ascii.eqb c sep) eqn:E; [done |]. intros H. by rewrite IH.
Qed.

Lemma count_char_blank (w : string) :
  all_chars is_space w = true -> count_char "," w = 0.
Proof. apply count_char_absent. reflexivity. Qed.

Lemma split_join (w p t : string) (ts : list string) :
  all_chars is_space w = true -> count_char "," p = 0 ->
  Forall clean_skill (t :: ts) ->
  str_split (p +:+ join (String "," w) (t :: ts)) "," =
  (p +:+ t) :: map (fun x => w +:+ x) ts.
Proof.
  intros Hw. revert p t. induction ts as [|t' ts IH]; intros p t Hp Hall.
  - cbn [join map]. apply split_free. rewrite count_char_app.
    apply Forall_inv in Hall as (_ & _ & Ht). lia.
  - change (join (String "," w) (t :: t' :: ts))
      with (t +:+ String "," w +:+ join (String "," w) (t' :: ts)).
    replace (p +:+ t +:+ String "," w +:+ join (String "," w) (t' :: ts))
      with ((p +:+ t) +:+ String "," (w +:+ join (String "," w) (t' :: ts)))
      by (by rewrite !append_assoc).
    pose proof (Forall_inv Hall) as (_ & _ & Ht).
    rewrite split_app_sep by (rewrite count_char_app; lia).
    rewrite IH; [done | by apply count_char_blank | by eapply Forall_inv_tail].
Qed.

Lemma lstrip_blank_app (w t : string) :
  all_chars is_space w = true -> lstrip (w +:+ t) = lstrip t.
Proof.
  induction w as [|c w IH]; simpl; [done |].
  rewrite andb_true_iff. intros [-> Hw]. by apply IH.
Qed.

Lemma strip_blank_app (w t : string) :
  all_chars is_space w = true -> strip (w +:+ t) = strip t.
Proof. intros Hw. unfold strip. by rewrite lstrip_blank_app. Qed.

Lemma parse_kept (w : string) (ts : list string) :
  all_chars is_space w = true -> Forall clean_skill ts ->
  map strip (List.filter (fun skill => negb (is_empty (strip skill)))
               (map (fun x => w +:+ x) ts)) = ts.
Proof.
  intros Hw. induction 1 as [|t ts (Hne & Htrim & _) _ IH]; [done |].
  cbn [map List.filter]. rewrite strip_blank_app, Htrim by done.
  apply is_empty_false in Hne as ->. cbn [negb map].
  by rewrite strip_blank_app, Htrim, IH.
Qed.

(** X17. A list of skills that are not empty, trimmed and without comma,
    written with commas (and any white space after each comma), is read
    back as it was. *)
Theorem parse_unfamiliar_join (w : string) (skills : list string) :
  all_chars is_space w = true ->
  Forall clean_skill skills ->
  parse_unfamiliar (join (String "," w) skills) = skills.
Proof.
  intros Hw Hall. destruct skills as [|t ts]; [done |].
  unfold parse_unfamiliar.
  pose proof (split_join w "" t ts Hw eq_refl Hall) as Hs.
  cbn [String.append] in Hs. rewrite Hs.
  pose proof (parse_kept w ts Hw (Forall_inv_tail Hall)) as H1.
  pose proof (Forall_inv Hall) as (Hne & Htrim & _).
  cbn [map List.filter]. rewrite Htrim.
  apply is_empty_false in Hne as ->. cbn [negb map]. by rewrite Htrim, H1.
Qed.

Lemma strip_blank (t : string) : all_chars is_space t = true -> strip t = "".
Proof.
  intros H. unfold strip.
  assert (lstrip t = "") as ->; [| done].
  induction t as [|c t IH]; simpl in *; [done |].
  apply andb_true_iff in H as [-> H]. by apply IH.
Qed.

Lemma split_blank_tokens (s t : string) :
  all_chars is_blank_or_comma s = true -> t ∈ str_split s "," ->
  all_chars is_space t = true.
Proof.
  revert t. induction s as [|c s IH]; intros t; simpl.
  - by intros _ ->%list_elem_of_singleton.
  - rewrite andb_true_iff. intros [Hc Hs].
    destruct (Ascii.eqb c ",") eqn:E.
    + intros [-> | Ht]%elem_of_cons; [done | by apply IH].
    + pose proof (split_nonempty s ",") as Hne.
      destruct (str_split s ",") as [|first others]; [done |].
      unfold is_blank_or_comma in Hc. rewrite E, orb_false_r in Hc.
      intros [-> | Ht]%elem_of_cons.
      * simpl. rewrite Hc. apply IH; [done | by left].
      * apply IH; [done | by right].
Qed.

(** X18. A line of white space and commas only gives no entry, and the
    filter then keeps every record. *)
Theorem parse_unfamiliar_blank (unfamiliar_input : string) (jobs : list job) :
  all_chars is_blank_or_comma unfamiliar_input = true ->
  parse_unfamiliar unfamiliar_input = [] /\
  filter_jobs_by_skills jobs (parse_unfamiliar unfamiliar_input) = jobs.
Proof.
  intros Hblank.
  assert (parse_unfamiliar unfamiliar_input = []) as ->.
  { destruct (parse_unfamiliar unfamiliar_input) as [|e es] eqn:E; [done |].
    assert (e ∈ parse_unfamiliar unfamiliar_input) as He by (rewrite E; left).
    apply elem_of_parse_unfamiliar in He as (t & Ht & _ & Hne).
    destruct Hne. apply strip_blank. by eapply split_blank_tokens. }
  split; [done | apply filter_jobs_by_skills_nil_unfamiliar].
Qed.

Lemma space_not_comma (c : ascii) : is_space c = true -> Ascii.eqb c "," = false.
Proof.
  intros H. destruct (Ascii.eqb c ",") eqn:E; [| done].
  apply Ascii.eqb_eq in E as ->. discriminate.
Qed.

Lemma strip_cons_space (c : ascii) (t : string) :
  is_space c = true -> strip (String c t) = strip t.
Proof. intros H. unfold strip. simpl. by rewrite H. Qed.

Lemma parse_unfamiliar_cons_space (c : ascii) (s : string) :
  is_space c = true -> parse_unfamiliar (String c s) = parse_unfamiliar s.
Proof.
  intros Hc. unfold parse_unfamiliar.
  destruct (split_cons_other c "," s (space_not_comma c Hc))
    as (first & others & -> & ->).
  cbn [List.filter]. rewrite !(strip_cons_space c first Hc).
  destruct (negb _); cbn [map]; by rewrite ?(strip_cons_space c first Hc).
Qed.

Lemma parse_unfamiliar_lstrip (s : string) :
  parse_unfamiliar (lstrip s) = parse_unfamiliar s.
Proof.
  induction s as [|c s IH]; simpl; [done |].
  destruct (is_space c) eqn:E; [| done].
  by rewrite IH, parse_unfamiliar_cons_space.
Qed.

Lemma rstrip_empty_blank (s : string) : rstrip s = "" -> all_chars is_space s = true.
Proof.
  induction s as [|c s IH]; simpl; [done |].
  destruct (is_space c) eqn:Ec; simpl; [| done].
  destruct (rstrip s) eqn:Er; simpl; [intros _; by apply IH | done].
Qed.

Lemma split_rstrip (s : string) :
  Forall2 (fun a b => rstrip a = rstrip b)
    (str_split (rstrip s) ",") (str_split s ",").
Proof.
  induction s as [|c s IH]; [by repeat constructor |].
  cbn [rstrip].
  destruct (is_space c && is_empty (rstrip s)) eqn:E.
  - apply andb_true_iff in E as [Hc Hr].
    assert (rstrip s = "") as Hs by (by destruct (rstrip s)).
    assert (all_chars is_space (String c s) = true) as Hblank.
    { simpl. rewrite Hc. by apply rstrip_empty_blank. }
    rewrite (split_free (String c s)) by (by apply count_char_blank).
    repeat constructor. simpl. by rewrite Hc, Hs.
  - destruct (Ascii.eqb c ",") eqn:Ec.
    + simpl. rewrite Ec. by constructor.
    + destruct (split_cons_other c "," s Ec) as (f & o & Hf & ->).
      destruct (split_cons_other c "," (rstrip s) Ec) as (f' & o' & Hf' & ->).
      rewrite Hf, Hf' in IH. apply Forall2_cons_1 in IH as [Hff Hoo].
      constructor; [| done]. simpl. by rewrite Hff.
Qed.

Lemma strip_of_rstrip (a b : string) : rstrip a = rstrip b -> strip a = strip b.
Proof.
  intros H. unfold strip. by rewrite <- !lstrip_rstrip, H.
Qed.

Lemma parse_tokens_rstrip (l' l : list string) :
  Forall2 (fun a b => rstrip a = rstrip b) l' l ->
  map strip (List.filter (fun skill => negb (is_empty (strip skill))) l') =
  map strip (List.filter (fun skill => negb (is_empty (strip skill))) l).
Proof.
  induction 1 as [|a b l' l Hab _ IH]; [done |].
  cbn [List.filter]. rewrite (strip_of_rstrip a b Hab).
  destruct (negb _); cbn [map]; by rewrite IH, ?(strip_of_rstrip a b Hab).
Qed.

(** X19. Trimming the whole line first, as the command line does and the
    dashboard does not, changes nothing in the entries read. *)
Theorem parse_unfamiliar_strip (unfamiliar_input : string) :
  parse_unfamiliar (strip unfamiliar_input) = parse_unfamiliar unfamiliar_input.
Proof.
  rewrite <- (parse_unfamiliar_lstrip unfamiliar_input). unfold strip, parse_unfamiliar.
  apply parse_tokens_rstrip, split_rstrip.
Qed.

End ParseFacts.

Section CardFacts.

Lemma complete_company_title (j : job) :
  complete j ->
  exists co ti, j !! "company" = Some (VStr co) /\ j !! "job_title" = Some (VStr ti).
Proof.
  intros (_ & Hstr & _).
  destruct (Hstr "company") as [co Hco]; [unfold field_names; set_solver | done |].
  destruct (Hstr "job_title") as [ti Hti]; [unfold field_names; set_solver | done |].
  eauto.
Qed.

Lemma card_shown_complete (f : string) (j : job) :
  complete j ->
  exists b, card_shown f j = Some b /\ (b = true <-> card_matches f j).
Proof.
  intros (co & ti & Hco & Hti)%complete_company_title.
  unfold card_shown, getitem_lower. rewrite Hco, Hti. cbn.
  destruct (contains (lower co) (lower f)) eqn:Ec.
  - exists true. split; [done |]. split; [intros _ | done].
    exists "company", co. split; [by left |]. split; [done |]. by apply contains_spec.
  - exists (contains (lower ti) (lower f)). split; [done |]. split.
    + intros Ht. exists "job_title", ti. split; [by right |]. split; [done |].
      by apply contains_spec.
    + intros (k & s & [-> | ->] & Hk & Hsub); apply contains_spec in Hsub.
      * rewrite Hco in Hk. injection Hk as <-. congruence.
      * rewrite Hti in Hk. by injection Hk as <-.
Qed.

Lemma cards_shown_filter (f : string) (jobs : list job) :
  (forall j, j ∈ jobs -> is_Some (card_shown f j)) ->
  cards_shown f jobs =
  Some (List.filter (fun j => default false (card_shown f j)) jobs).
Proof.
  induction jobs as [|j jobs IH]; intros Hall; [done |].
  cbn [cards_shown List.filter].
  destruct (Hall j ltac:(left)) as [b Hb]. rewrite Hb. cbn.
  rewrite IH by (intros j' Hj'; apply Hall; by right). cbn. by destruct b.
Qed.

(** X20. On complete records the text filter of the Jobs tab does not
    fail and keeps, in order, the records for which the filter, lower-
    cased, is a substring of the lower-cased company or job title; an
    empty filter keeps them all. *)
Theorem filter_cards_complete (search_filter : string) (jobs_data : list job) :
  Forall complete jobs_data ->
  exists keep : job -> bool,
    (forall j, complete j -> (keep j = true <-> card_matches search_filter j)) /\
    filter_cards search_filter jobs_data = Some (List.filter keep jobs_data).
Proof.
  intros Hall. exists (fun j => default false (card_shown search_filter j)). split.
  - intros j (b & -> & Hb)%(card_shown_complete search_filter). done.
  - unfold filter_cards. destruct (is_empty search_filter) eqn:E.
    + destruct search_filter; [| done]. f_equal.
      induction Hall as [|j jobs Hj _ IH]; [done |].
      cbn [List.filter].
      destruct (complete_company_title j Hj) as (co & ti & Hco & Hti).
      unfold card_shown at 1, getitem_lower. rewrite Hco. cbn.
      rewrite contains_empty. cbn. by rewrite <- IH.
    + apply cards_shown_filter. intros j Hj.
      rewrite Forall_forall in Hall.
      destruct (card_shown_complete search_filter j (Hall j Hj)) as (b & -> & _).
      done.
Qed.

Lemma cards_shown_None (f : string) (jobs : list job) :
  cards_shown f jobs = None <-> exists j, j ∈ jobs /\ card_shown f j = None.
Proof.
  induction jobs as [|j jobs IH]; cbn [cards_shown].
  - split; [done | by intros (j & ?%elem_of_nil & _)].
  - destruct (card_shown f j) as [b|] eqn:Eb; cbn.
    + destruct (cards_shown f jobs) as [others|] eqn:Eo; cbn.
      * split; [done |]. intros (j' & [-> | Hj']%elem_of_cons & Hn); [congruence |].
        assert (Some others = None) as Habs by (apply (proj2 IH); eauto).
        discriminate Habs.
      * split; [| done]. intros _.
        destruct (proj1 IH eq_refl) as (j' & Hj' & Hn). exists j'. split; [by right | done].
    + split; [| done]. intros _. exists j. split; [left | done].
Qed.

(** X21. The text filter fails exactly when it is not empty and some
    record either has no string as its company, or has a company that
    does not match and no string as its job title: a missing title is
    not looked at when the company matches. *)
Theorem filter_cards_raises (search_filter : string) (jobs_data : list job) :
  (filter_cards search_filter jobs_data = None <->
   search_filter <> "" /\ exists j, j ∈ jobs_data /\ card_shown search_filter j = None) /\
  (forall j, card_shown search_filter j = None <->
     getitem_lower j "company" = None \/
     (exists company, getitem_lower j "company" = Some company /\
        contains company (lower search_filter) = false /\
        getitem_lower j "job_title" = None)).
Proof.
  split.
  - unfold filter_cards. destruct search_filter as [|c f]; cbn [is_empty].
    + split; [done | by intros [? _]].
    + rewrite cards_shown_None. split; [by intros H | by intros [_ H]].
  - intros j. unfold card_shown.
    destruct (getitem_lower j "company") as [co|]; cbn; [| split; [by left | done]].
    destruct (contains co (lower search_filter)) eqn:Ec.
    + split; [done |]. intros [? | (co' & [= <-] & Hc & _)]; [done | congruence].
    + destruct (getitem_lower j "job_title") as [ti|]; cbn.
      * split; [done |]. by intros [? | (co' & _ & _ & ?)].
      * split; [| done]. intros _. right. by exists co.
Qed.

Lemma is_empty_lower_eq (a b : string) : lower a = lower b -> is_empty a = is_empty b.
Proof. by destruct a, b. Qed.

(** X22. Two filters that are equal up to case show the same records. *)
Theorem filter_cards_case (f1 f2 : string) (jobs_data : list job) :
  lower f1 = lower f2 ->
  filter_cards f1 jobs_data = filter_cards f2 jobs_data.
Proof.
  intros H. unfold filter_cards. rewrite (is_empty_lower_eq f1 f2 H).
  destruct (is_empty f2); [done |].
  induction jobs_data as [|j jobs IH]; [done |].
  cbn [cards_shown]. unfold card_shown. by rewrite H, IH.
Qed.

End CardFacts.

Section AnalyticsFacts.

Lemma string_eqb_eq (a b : string) : String.eqb a b = true <-> a = b.
Proof. apply String.eqb_eq. Qed.

Lemma string_eqb_neq (a b : string) : String.eqb a b = false <-> a <> b.
Proof. apply String.eqb_neq. Qed.

Lemma tally_count_skill (d : list (string * nat)) (skill k : string) :
  tally (count_skill d skill) k = tally d k + (if String.eqb skill k then 1 else 0).
Proof.
  induction d as [|[k' n] d IH]; cbn [count_skill tally].
  - destruct (String.eqb skill k); lia.
  - destruct (String.eqb k' skill) eqn:E1; cbn [tally].
    + apply string_eqb_eq in E1 as ->.
      destruct (String.eqb skill k); lia.
    + destruct (String.eqb k' k) eqn:E2; [| apply IH].
      apply string_eqb_eq in E2 as ->.
      rewrite String.eqb_sym, E1. lia.
Qed.

Lemma keys_count_skill (d : list (string * nat)) (skill k : string) :
  k ∈ (count_skill d skill).*1 <-> k = skill \/ k ∈ d.*1.
Proof.
  induction d as [|[k' n] d IH]; cbn [count_skill fmap list_fmap].
  - cbn. rewrite list_elem_of_singleton, elem_of_nil. tauto.
  - destruct (String.eqb k' skill) eqn:E1; cbn [fmap list_fmap fst].
    + apply string_eqb_eq in E1 as ->. rewrite !elem_of_cons. tauto.
    + rewrite !elem_of_cons, IH. tauto.
Qed.

Lemma NoDup_count_skill (d : list (string * nat)) (skill : string) :
  NoDup d.*1 -> NoDup (count_skill d skill).*1.
Proof.
  induction d as [|[k' n] d IH]; cbn [count_skill fmap list_fmap fst].
  - intros _. apply NoDup_singleton.
  - intros [Hk Hd]%NoDup_cons.
    destruct (String.eqb k' skill) eqn:E1; cbn [fmap list_fmap fst].
    + by apply NoDup_cons.
    + apply NoDup_cons. split; [| by apply IH].
      rewrite keys_count_skill. intros [-> | ?]; [| done].
      by rewrite String.eqb_refl in E1.
Qed.

Lemma positive_count_skill (d : list (string * nat)) (skill : string) :
  Forall (fun p => 0 < p.2) d -> Forall (fun p => 0 < p.2) (count_skill d skill).
Proof.
  induction 1 as [|[k' n] d Hn Hd IH]; cbn [count_skill].
  - repeat constructor.
  - destruct (String.eqb k' skill); constructor; cbn in *; try lia; done.
Qed.

Lemma times_snoc (k skill : string) (l : list string) :
  times k (l ++ [skill]) = times k l + (if String.eqb skill k then 1 else 0).
Proof.
  unfold times. rewrite List.filter_app, length_app. cbn.
  rewrite (String.eqb_sym k skill). by destruct (String.eqb skill k).
Qed.

(** What the counting loop keeps true. *)
Lemma fold_count_skill (l done_ : list string) (d : list (string * nat)) :
  NoDup d.*1 -> Forall (fun p => 0 < p.2) d ->
  (forall k, tally d k = times k done_) ->
  (forall k, k ∈ d.*1 <-> k ∈ done_) ->
  let d' := fold_left count_skill l d in
  NoDup d'.*1 /\ Forall (fun p => 0 < p.2) d' /\
  (forall k, tally d' k = times k (done_ ++ l)) /\
  (forall k, k ∈ d'.*1 <-> k ∈ done_ ++ l).
Proof.
  revert done_ d. induction l as [|skill l IH]; intros done_ d Hnd Hpos Ht Hk; cbn.
  - rewrite app_nil_r. auto.
  - replace (done_ ++ skill :: l) with ((done_ ++ [skill]) ++ l)
      by (by rewrite <- app_assoc).
    apply IH.
    + by apply NoDup_count_skill.
    + by apply positive_count_skill.
    + intros k. by rewrite tally_count_skill, times_snoc, Ht.
    + intros k. rewrite keys_count_skill, elem_of_app, list_elem_of_singleton, Hk. tauto.
Qed.

Lemma count_skills_facts (all_skills : list string) :
  NoDup (count_skills all_skills).*1 /\
  Forall (fun p => 0 < p.2) (count_skills all_skills) /\
  (forall k, tally (count_skills all_skills) k = times k all_skills) /\
  (forall k, k ∈ (count_skills all_skills).*1 <-> k ∈ all_skills).
Proof.
  apply (fold_count_skill all_skills [] []); try done; try constructor.
Qed.

Lemma tally_elem_of (d : list (string * nat)) (k : string) (n : nat) :
  NoDup d.*1 -> (k, n) ∈ d -> tally d k = n.
Proof.
  induction d as [|[k' n'] d IH]; [by intros _ ?%elem_of_nil |].
  cbn [fmap list_fmap fst tally]. intros [Hk Hd]%NoDup_cons [[= -> ->] | Hin]%elem_of_cons.
  - by rewrite String.eqb_refl.
  - destruct (String.eqb k' k) eqn:E; [| by apply IH].
    apply string_eqb_eq in E as ->. destruct Hk.
    apply list_elem_of_fmap. by exists (k, n).
Qed.

Lemma elem_of_tally (d : list (string * nat)) (k : string) :
  k ∈ d.*1 -> (k, tally d k) ∈ d.
Proof.
  induction d as [|[k' n'] d IH]; [by intros ?%elem_of_nil |].
  cbn [fmap list_fmap fst tally]. destruct (String.eqb k' k) eqn:E.
  - apply string_eqb_eq in E as ->. intros _. left.
  - intros [-> | Hin]%elem_of_cons; [by rewrite String.eqb_refl in E |].
    right. by apply IH.
Qed.

Lemma times_pos (k : string) (l : list string) : 0 < times k l <-> k ∈ l.
Proof.
  unfold times. induction l as [|x l IH]; cbn; [rewrite elem_of_nil; lia |].
  rewrite elem_of_cons. destruct (String.eqb k x) eqn:E; cbn.
  - apply string_eqb_eq in E as ->. split; [by left | lia].
  - apply string_eqb_neq in E. rewrite IH. split; [by right | by intros [? | ?]].
Qed.

Lemma count_skills_length (all_skills : list string) :
  length (count_skills all_skills) = size (list_to_set all_skills : gset string).
Proof.
  destruct (count_skills_facts all_skills) as (Hnd & _ & _ & Hk).
  rewrite <- (length_fmap fst), <- (size_list_to_set (C := gset string)) by done.
  f_equal. apply set_eq. intros k. by rewrite !elem_of_list_to_set, Hk.
Qed.

(** X23. The counting loop gives each listed skill once, with the number
    of times it is listed, and nothing else; the number of its entries
    is the number of distinct skills, shown as Unique Skills. *)
Theorem count_skills_counts (all_skills : list string) :
  NoDup (count_skills all_skills).*1 /\
  (forall skill n, (skill, n) ∈ count_skills all_skills <->
     skill ∈ all_skills /\ n = times skill all_skills) /\
  length (count_skills all_skills) = size (list_to_set all_skills : gset string).
Proof.
  destruct (count_skills_facts all_skills) as (Hnd & Hpos & Ht & Hk).
  split; [done |]. split.
  - intros skill n. split.
    + intros Hin. split.
      * apply Hk, list_elem_of_fmap. by exists (skill, n).
      * by rewrite <- Ht, (tally_elem_of _ skill n).
    + intros [Hin ->]. rewrite <- Ht. by apply elem_of_tally, Hk.
  - apply count_skills_length.
Qed.

Lemma insert_by_count_perm (x : string * nat) (l : list (string * nat)) :
  insert_by_count x l ≡ₚ x :: l.
Proof.
  induction l as [|y l IH]; cbn [insert_by_count]; [reflexivity |].
  destruct (x.2 <? y.2); [| reflexivity]. rewrite IH. apply Permutation_swap.
Qed.

Lemma sorted_by_count_perm (l : list (string * nat)) : sorted_by_count l ≡ₚ l.
Proof.
  induction l as [|x l IH]; cbn [sorted_by_count foldr]; [reflexivity |].
  rewrite insert_by_count_perm. fold (sorted_by_count l). by rewrite IH.
Qed.

Lemma insert_by_count_sorted (x : string * nat) (l : list (string * nat)) :
  StronglySorted by_count l -> StronglySorted by_count (insert_by_count x l).
Proof.
  induction 1 as [|y l Hl IH Hy]; cbn [insert_by_count].
  - repeat constructor.
  - destruct (x.2 <? y.2) eqn:E.
    + apply Nat.ltb_lt in E. constructor; [done |].
      rewrite insert_by_count_perm. constructor; [unfold by_count; lia | done].
    + apply Nat.ltb_ge in E. constructor; [by constructor |].
      constructor; [done |].
      eapply Forall_impl; [exact Hy |]. unfold by_count. cbn. intros; lia.
Qed.

Lemma sorted_by_count_sorted (l : list (string * nat)) :
  StronglySorted by_count (sorted_by_count l).
Proof.
  induction l as [|x l IH]; cbn [sorted_by_count foldr];
    [constructor | by apply insert_by_count_sorted].
Qed.

Lemma insert_by_count_stable (n : nat) (x : string * nat) (l : list (string * nat)) :
  List.filter (fun p => p.2 =? n) (insert_by_count x l) =
  List.filter (fun p => p.2 =? n) (x :: l).
Proof.
  induction l as [|y l IH]; [done |]. cbn [insert_by_count].
  destruct (x.2 <? y.2) eqn:E; [| done].
  apply Nat.ltb_lt in E. cbn [List.filter] in *. rewrite IH.
  destruct (x.2 =? n) eqn:Ex, (y.2 =? n) eqn:Ey; try done.
  apply Nat.eqb_eq in Ex, Ey. lia.
Qed.

Lemma sorted_by_count_stable (n : nat) (l : list (string * nat)) :
  List.filter (fun p => p.2 =? n) (sorted_by_count l) =
  List.filter (fun p => p.2 =? n) l.
Proof.
  induction l as [|x l IH]; [done |]. cbn [sorted_by_count foldr].
  rewrite insert_by_count_stable. cbn [List.filter].
  fold (sorted_by_count l). by rewrite IH.
Qed.

Lemma top_skills_length (skill_counts : list (string * nat)) :
  length (top_skills skill_counts) = Nat.min 10 (length skill_counts).
Proof.
  unfold top_skills.
  by rewrite length_take, (Permutation_length (sorted_by_count_perm skill_counts)).
Qed.

(** X24. The chart takes the ten first entries (all when there are
    fewer) of the counts put in decreasing order: they are in decreasing
    order, no entry left out counts more than one that is kept, and
    entries of equal count stay in the order of the dict. *)
Theorem top_skills_most_counted (skill_counts : list (string * nat)) :
  let top := top_skills skill_counts in
  length top = Nat.min 10 (length skill_counts) /\
  StronglySorted by_count top /\
  (exists others,
      top ++ others ≡ₚ skill_counts /\
      (forall x y, x ∈ top -> y ∈ others -> y.2 <= x.2) /\
      (forall n, List.filter (fun p => p.2 =? n) (top ++ others) =
                 List.filter (fun p => p.2 =? n) skill_counts)).
Proof.
  cbv zeta. unfold top_skills.
  pose proof (sorted_by_count_sorted skill_counts) as Hs.
  pose proof (sorted_by_count_perm skill_counts) as Hp.
  rewrite <- (take_drop 10 (sorted_by_count skill_counts)) in Hs.
  apply StronglySorted_app in Hs as (Hll & Htop & _).
  split; [apply top_skills_length |].
  split; [done |].
  exists (drop 10 (sorted_by_count skill_counts)). rewrite take_drop.
  split; [done |]. split.
  - intros x y Hx Hy. exact (Hll x y Hx Hy).
  - intros n. apply sorted_by_count_stable.
Qed.

Lemma complete_skills (j : job) :
  complete j -> exists l, j !! "skills" = Some (VList l) /\ get_skills j = l.
Proof.
  intros (_ & _ & l & Hl). exists l. split; [done |]. unfold get_skills. by rewrite Hl.
Qed.

Lemma complete_company (j : job) :
  complete j -> exists co, j !! "company" = Some (VStr co).
Proof.
  intros (_ & Hstr & _). apply Hstr; [unfold field_names; set_solver | done].
Qed.

Lemma named_companies_complete (jobs : list job) :
  Forall complete jobs ->
  exists names, named_companies jobs = Some names /\ length names <= length jobs.
Proof.
  induction 1 as [|j jobs Hj _ (names & IH & Hlen)]; [by exists [] |].
  destruct (complete_company j Hj) as [co Hco].
  cbn [named_companies]. rewrite Hco, IH. cbn.
  destruct (String.eqb co NA); eexists; (split; [done |]); cbn; lia.
Qed.

Lemma gather_skills_complete (jobs : list job) (all_skills : list string) :
  Forall complete jobs ->
  gather_skills jobs all_skills = Some (all_skills ++ flat_map get_skills jobs).
Proof.
  intros Hall. revert all_skills.
  induction Hall as [|j jobs Hj _ IH]; intros all_skills; cbn [gather_skills flat_map].
  - by rewrite app_nil_r.
  - destruct (complete_skills j Hj) as (l & Hl & ->). rewrite Hl. cbn.
    by rewrite IH, <- app_assoc.
Qed.

Lemma size_list_to_set_le (l : list string) :
  size (list_to_set l : gset string) <= length l.
Proof.
  induction l as [|x l IH]; cbn [list_to_set length].
  - by rewrite size_empty.
  - destruct (decide (x ∈ (list_to_set l : gset string))) as [Hin | Hout].
    + rewrite subseteq_union_1_L by (by apply singleton_subseteq_l). lia.
    + rewrite size_union by (by apply disjoint_singleton_l).
      rewrite size_singleton. lia.
Qed.

Lemma top_skills_nil (skill_counts : list (string * nat)) :
  top_skills skill_counts = [] <-> skill_counts = [].
Proof.
  split; [| by intros ->].
  intros H. apply (f_equal length) in H. rewrite top_skills_length in H.
  destruct skill_counts; [done | cbn in H; lia].
Qed.

Lemma count_skills_nil (all_skills : list string) :
  count_skills all_skills = [] <-> all_skills = [].
Proof.
  split; [| by intros ->]. intros H.
  destruct (count_skills_facts all_skills) as (_ & _ & _ & Hk).
  destruct all_skills as [|x l]; [done |].
  assert (x ∈ (count_skills (x :: l)).*1) as Hx by (apply Hk; left).
  rewrite H in Hx. by apply elem_of_nil in Hx.
Qed.

(** X25. The Analytics tab shows nothing for an empty list. For complete
    records it does not fail: Total Jobs is the number of records,
    Companies is at most that number, Unique Skills is the number of
    counted skills, and the chart is absent exactly when no record has a
    skill and otherwise holds as many skills as counts, ten at most. *)
Theorem create_simple_analytics_complete (jobs : list job) :
  create_simple_analytics [] = Some None /\
  (jobs <> [] -> Forall complete jobs ->
   exists a,
     create_simple_analytics jobs = Some (Some a) /\
     total_jobs a = length jobs /\
     companies a <= length jobs /\
     unique_skills a = length (count_skills (flat_map get_skills jobs)) /\
     (chart a = None <-> flat_map get_skills jobs = []) /\
     (forall skills counts, chart a = Some (skills, counts) ->
        length skills = Nat.min 10 (unique_skills a) /\
        length counts = length skills)).
Proof.
  split; [done |]. intros Hne Hall.
  destruct (named_companies_complete jobs Hall) as (names & Hnames & Hlen).
  pose proof (gather_skills_complete jobs [] Hall) as Hgather. cbn [app] in Hgather.
  unfold create_simple_analytics. destruct jobs as [|j jobs]; [done |].
  rewrite Hnames, Hgather. cbn [mbind option_bind].
  set (all := flat_map get_skills (j :: jobs)).
  pose proof (count_skills_length all) as Hsize.
  eexists. split; [reflexivity |]. cbn [total_jobs companies unique_skills chart].
  split; [done |]. split; [pose proof (size_list_to_set_le names); lia |].
  split; [done |].
  destruct all as [|x l] eqn:Eall; [by split |].
  pose proof (top_skills_length (count_skills (x :: l))) as Htop.
  destruct (top_skills (count_skills (x :: l))) as [|t top] eqn:Et.
  - apply top_skills_nil, count_skills_nil in Et. done.
  - split; [by split |]. intros skills counts [= <- <-].
    cbn [length] in *. rewrite !length_map, <- Hsize. lia.
Qed.

End AnalyticsFacts.

Section ExportFacts.

Lemma complete_lookup (j : job) (k : string) :
  complete j -> k ∈ field_names -> is_Some (j !! k).
Proof.
  intros (_ & Hstr & l & Hl) Hk.
  destruct (decide (k = "skills")) as [-> | Hne]; [by rewrite Hl |].
  destruct (Hstr k Hk Hne) as [s ->]. done.
Qed.

Lemma export_row_complete (j : job) :
  complete j ->
  exists ti co sk ex lo sa po de mo,
    j !! "job_title" = Some ti /\ j !! "company" = Some co /\
    j !! "skills" = Some (VList sk) /\ j !! "experience" = Some ex /\
    j !! "location" = Some lo /\ j !! "salary" = Some sa /\
    j !! "posted_date" = Some po /\ j !! "job_description" = Some de /\
    j !! "more_info" = Some mo /\
    export_row j =
    Some [ ("Job Title", ti); ("Company", co); ("Skills", VStr (join ", " sk));
           ("Experience", ex); ("Location", lo); ("Salary", sa);
           ("Posted Date", po); ("Job Description", de); ("More Info", mo) ].
Proof.
  intros Hc. pose proof Hc as (_ & _ & sk & Hsk).
  destruct (complete_lookup j "job_title" Hc) as [ti Hti]; [unfold field_names; set_solver |].
  destruct (complete_lookup j "company" Hc) as [co Hco]; [unfold field_names; set_solver |].
  destruct (complete_lookup j "experience" Hc) as [ex Hex]; [unfold field_names; set_solver |].
  destruct (complete_lookup j "location" Hc) as [lo Hlo]; [unfold field_names; set_solver |].
  destruct (complete_lookup j "salary" Hc) as [sa Hsa]; [unfold field_names; set_solver |].
  destruct (complete_lookup j "posted_date" Hc) as [po Hpo]; [unfold field_names; set_solver |].
  destruct (complete_lookup j "job_description" Hc) as [de Hde]; [unfold field_names; set_solver |].
  destruct (complete_lookup j "more_info" Hc) as [mo Hmo]; [unfold field_names; set_solver |].
  exists ti, co, sk, ex, lo, sa, po, de, mo.
  unfold export_row. rewrite Hti, Hco, Hsk, Hex, Hlo, Hsa, Hpo, Hde, Hmo.
  repeat split; done.
Qed.

Lemma join_comma_inj (l1 l2 : list string) :
  Forall clean_skill l1 -> Forall clean_skill l2 ->
  join ", " l1 = join ", " l2 -> l1 = l2.
Proof.
  intros H1 H2 Hj.
  assert (forall l, Forall clean_skill l ->
            str_split (join ", " l) "," =
            match l with [] => [""] | t :: ts => t :: map (fun x => " " +:+ x) ts end)
    as Hsplit.
  { intros [|t ts] Hl; [done |].
    apply (split_join " " "" t ts); done. }
  pose proof (Hsplit l1 H1) as E1. pose proof (Hsplit l2 H2) as E2.
  rewrite Hj, E2 in E1.
  destruct l1 as [|t1 ts1], l2 as [|t2 ts2]; try done.
  - injection E1 as E _. apply Forall_inv in H2 as (Hne & _). congruence.
  - injection E1 as E _. apply Forall_inv in H1 as (Hne & _). congruence.
  - injection E1 as -> E. f_equal. symmetry.
    revert E. generalize ts2. clear.
    induction ts1 as [|a ts1 IH]; intros [|b ts2] E; try done.
    cbn in E. injection E as -> E. f_equal. by apply IH.
Qed.

Lemma complete_eq (j1 j2 : job) :
  complete j1 -> complete j2 ->
  (forall k, k ∈ field_names -> j1 !! k = j2 !! k) -> j1 = j2.
Proof.
  intros (Hd1 & _) (Hd2 & _) Hf. apply map_eq. intros k.
  destruct (decide (k ∈ field_names)) as [Hk | Hk]; [by apply Hf |].
  assert (k ∉ dom j1) as N1 by (rewrite Hd1, elem_of_list_to_set; done).
  assert (k ∉ dom j2) as N2 by (rewrite Hd2, elem_of_list_to_set; done).
  apply not_elem_of_dom in N1, N2. congruence.
Qed.

Lemma export_row_inj (j1 j2 : job) :
  exportable j1 -> exportable j2 -> export_row j1 = export_row j2 -> j1 = j2.
Proof.
  intros [Hc1 Hs1] [Hc2 Hs2] He.
  destruct (export_row_complete j1 Hc1)
    as (ti & co & sk & ex & lo & sa & po & de & mo &
        Hti & Hco & Hsk & Hex & Hlo & Hsa & Hpo & Hde & Hmo & Hrow).
  destruct (export_row_complete j2 Hc2)
    as (ti' & co' & sk' & ex' & lo' & sa' & po' & de' & mo' &
        Hti' & Hco' & Hsk' & Hex' & Hlo' & Hsa' & Hpo' & Hde' & Hmo' & Hrow').
  rewrite Hrow, Hrow' in He. simplify_eq.
  unfold get_skills in Hs1, Hs2. rewrite Hsk in Hs1. rewrite Hsk' in Hs2.
  assert (sk = sk') as -> by (by apply join_comma_inj).
  apply complete_eq; [done | done |].
  intros k Hk. unfold field_names in Hk.
  repeat (apply elem_of_cons in Hk as [-> | Hk]; [congruence |]).
  by apply elem_of_nil in Hk.
Qed.

(** X26. For complete records whose skills are not empty, trimmed and
    without comma, the export table has one row for each record, and two
    lists of records with the same table are equal: joining the skills
    with a comma and a space loses nothing. *)
Theorem export_rows_keep_records (jobs1 jobs2 : list job) :
  Forall exportable jobs1 -> Forall exportable jobs2 ->
  (exists rows, export_rows jobs1 = Some rows /\ length rows = length jobs1) /\
  (export_rows jobs1 = export_rows jobs2 -> jobs1 = jobs2).
Proof.
  intros H1 H2. split.
  - clear H2. induction H1 as [|j jobs [Hj _] _ (rows & IH & Hlen)]; [by exists [] |].
    destruct (export_row_complete j Hj)
      as (ti & co & sk & ex & lo & sa & po & de & mo & _ & _ & _ & _ & _ & _ & _ & _ & _ & Hrow).
    cbn [export_rows]. rewrite Hrow, IH. cbn. eexists. split; [done |]. cbn. lia.
  - revert jobs2 H2. induction H1 as [|j1 jobs1 Hj1 Hall1 IH]; intros jobs2 H2.
    + destruct H2 as [|j2 jobs2 [Hj2 _] _]; [done |].
      destruct (export_row_complete j2 Hj2)
        as (? & ? & ? & ? & ? & ? & ? & ? & ? & _ & _ & _ & _ & _ & _ & _ & _ & _ & Hrow).
      cbn [export_rows]. rewrite Hrow. cbn. by destruct (export_rows jobs2).
    + assert (exists r1 rs1, export_row j1 = Some r1 /\ export_rows jobs1 = Some rs1)
        as (r1 & rs1 & Hr1 & Hrs1).
      { destruct Hj1 as [Hc _].
        destruct (export_row_complete j1 Hc)
          as (? & ? & ? & ? & ? & ? & ? & ? & ? & _ & _ & _ & _ & _ & _ & _ & _ & _ & Hrow).
        clear IH. induction Hall1 as [|j jobs [Hj _] _ (r & rs & _ & IH)].
        - eauto.
        - destruct (export_row_complete j Hj)
            as (? & ? & ? & ? & ? & ? & ? & ? & ? & _ & _ & _ & _ & _ & _ & _ & _ & _ & Hrow').
          cbn [export_rows]. rewrite Hrow', IH. cbn. eauto. }
      destruct H2 as [|j2 jobs2 Hj2 Hall2].
      * cbn [export_rows]. rewrite Hr1, Hrs1. done.
      * cbn [export_rows]. rewrite Hr1, Hrs1. cbn.
        destruct (export_row j2) as [r2|] eqn:Hr2; [| done]. cbn.
        destruct (export_rows jobs2) as [rs2|] eqn:Hrs2; [| done]. cbn.
        intros [= -> ->]. f_equal.
        -- apply export_row_inj; [done | done | congruence].
        -- apply IH; [done | congruence].
Qed.

End ExportFacts.

(** ** More statements at sample inputs *)

Lemma filter_jobs_by_skills_same_entries_witness :
  filter_jobs_by_skills [job_without_skills; job_with_skill] ["java"; "go"] =
  filter_jobs_by_skills [job_without_skills; job_with_skill] ["go"; "java"; "go"].
Proof.
  apply (filter_jobs_by_skills_same_entries
           [job_without_skills; job_with_skill] ["java"; "go"] ["go"; "java"; "go"]).
  intros u. rewrite !elem_of_cons, !elem_of_nil. tauto.
Defined.

Lemma scrape_jobs_no_page_witness :
  run (scrape_jobs site_always "python" "" None 0) = (Ok [], []).
Proof. apply (scrape_jobs_no_page site_always "python" "" None 0%Z). lia. Defined.

Lemma scrape_jobs_records_witness :
  (run (scrape_jobs site_two_then_none "python" "" (Some ["rust"]) 5)).1 =
    Ok [acme_record; job_record "Bolt" NA ["Go"; "SQL"; "Go"] NA "3 LPA" "Pune" NA NA "/job/42"] /\
  complete acme_record /\ ~ requires_unfamiliar ["rust"] acme_record.
Proof.
  assert ((run (scrape_jobs site_two_then_none "python" "" (Some ["rust"]) 5)).1 =
          Ok [acme_record;
              job_record "Bolt" NA ["Go"; "SQL"; "Go"] NA "3 LPA" "Pune" NA NA "/job/42"])
    as H by (vm_compute; reflexivity).
  split; [exact H |].
  apply (scrape_jobs_records site_two_then_none "python" "" (Some ["rust"]) 5%Z _ acme_record H).
  left.
Defined.

Lemma page_gives_one_record_per_listing_witness :
  Forall2 (fun e r => extract_job_info e = Some r /\ complete r)
    [sample_listing "Acme"; bare_listing]
    (extract_page [sample_listing "Acme"; bare_listing] []).
Proof.
  apply (page_gives_one_record_per_listing
           (page_with [sample_listing "Acme"; bare_listing])).
  vm_compute. reflexivity.
Defined.

Lemma scrape_jobs_all_pages_witness :
  (run (scrape_jobs site_always "python" "" None 2)).2 =
  [ HttpGet (build_search_url "python" "" 1) 10; Sleep 2;
    HttpGet (build_search_url "python" "" 2) 10; Sleep 2 ].
Proof.
  apply (scrape_jobs_all_pages site_always "python" "" None 2%Z).
  intros page _. eexists _, _. vm_compute. reflexivity.
Defined.

Lemma extracted_texts_are_trimmed_witness :
  extract_job_info (sample_listing "Acme") = Some acme_record /\
  (forall k, k ∈ trimmed_fields -> exists v, acme_record !! k = Some (VStr v) /\ strip v = v) /\
  (forall t, t ∈ get_skills acme_record -> strip t = t).
Proof.
  assert (extract_job_info (sample_listing "Acme") = Some acme_record) as H
    by (vm_compute; reflexivity).
  split; [exact H |].
  exact (extracted_texts_are_trimmed (sample_listing "Acme") acme_record H).
Defined.

Lemma extracted_fields_when_found_witness :
  extract_job_info (sample_listing "Acme") = Some acme_record /\
  acme_record !! "company" = Some (VStr "Acme") /\
  acme_record !! "more_info" = Some (VStr "/job/42").
Proof.
  assert (extract_job_info (sample_listing "Acme") = Some acme_record) as H
    by (vm_compute; reflexivity).
  split; [exact H |].
  pose proof (extracted_fields_when_found (sample_listing "Acme") acme_record H)
    as (Hco & _ & _ & _ & Hlink).
  split.
  - exact (Hco (element "h3" ["joblist-comp-name"] [NavigableString "  Acme "]) eq_refl).
  - exact (Hlink (Tag "a" [] {[ "href" := "/job/42" ]} []) "/job/42" eq_refl eq_refl).
Defined.

Lemma parse_unfamiliar_entries_witness :
  parse_unfamiliar " Java , ,c++,, go " = ["Java"; "c++"; "go"] /\
  clean_skill "c++" /\ strip (lower "c++") <> "".
Proof.
  assert (parse_unfamiliar " Java , ,c++,, go " = ["Java"; "c++"; "go"]) as H
    by (vm_compute; reflexivity).
  split; [exact H |].
  apply (parse_unfamiliar_entries " Java , ,c++,, go " "c++").
  rewrite H. right. left.
Defined.

Lemma clean_skill_sample :
  Forall clean_skill ["Java"; "c++"; "go"].
Proof. repeat constructor; discriminate. Qed.

Lemma parse_unfamiliar_join_witness :
  parse_unfamiliar "Java, c++, go" = ["Java"; "c++"; "go"].
Proof.
  apply (parse_unfamiliar_join " " ["Java"; "c++"; "go"]).
  - reflexivity.
  - apply clean_skill_sample.
Defined.

Lemma parse_unfamiliar_blank_witness :
  parse_unfamiliar " , ,," = [] /\
  filter_jobs_by_skills [job_with_skill] (parse_unfamiliar " , ,,") = [job_with_skill].
Proof.
  apply (parse_unfamiliar_blank " , ,," [job_with_skill]). reflexivity.
Defined.

Lemma sample_jobs_complete :
  Forall complete [job_with_skill; job_without_skills; job_with_skill].
Proof. repeat constructor; apply job_record_complete. Qed.

Lemma filter_cards_complete_witness :
  exists keep : job -> bool,
    (forall j, complete j -> (keep j = true <-> card_matches "ACME" j)) /\
    filter_cards "ACME" [job_with_skill; job_without_skills; job_with_skill] =
    Some (List.filter keep [job_with_skill; job_without_skills; job_with_skill]).
Proof.
  apply (filter_cards_complete "ACME"
           [job_with_skill; job_without_skills; job_with_skill]).
  apply sample_jobs_complete.
Defined.

Lemma filter_cards_case_witness :
  filter_cards "ACME" [job_with_skill; job_without_skills] =
  filter_cards "acme" [job_with_skill; job_without_skills].
Proof.
  apply (filter_cards_case "ACME" "acme" [job_with_skill; job_without_skills]).
  reflexivity.
Defined.

Lemma create_simple_analytics_complete_witness :
  exists a,
    create_simple_analytics [job_with_skill; job_without_skills; job_with_skill] =
      Some (Some a) /\
    total_jobs a = 3 /\ companies a <= 3.
Proof.
  destruct (proj2 (create_simple_analytics_complete
                     [job_with_skill; job_without_skills; job_with_skill])
              ltac:(discriminate) sample_jobs_complete)
    as (a & Ha & Ht & Hc & _).
  exists a. split; [exact Ha |]. split; [exact Ht | exact Hc].
Defined.

Lemma sample_jobs_exportable : Forall exportable [job_with_skill; job_without_skills].
Proof.
  repeat constructor; try apply job_record_complete; discriminate.
Qed.

Lemma export_rows_keep_records_witness :
  exists rows,
    export_rows [job_with_skill; job_without_skills] = Some rows /\
    length rows = 2.
Proof.
  exact (proj1 (export_rows_keep_records
                  [job_with_skill; job_without_skills]
                  [job_with_skill; job_without_skills]
                  sample_jobs_exportable sample_jobs_exportable)).
Defined.
